(** * Dependabot approver: a shallow embedding of the triage script

    The script reads a token and a list of [owner/repo] lines, then walks the
    repositories one after the other.  For each repository it checks (once per
    organization) that the token may see the organization, lists the open pull
    requests, keeps the ones opened by Dependabot and, for each of them,
    refreshes the pull request, asks GitHub to update a branch that is behind,
    reads the combined commit status and approves the pull request when it is
    green.  Four counters are printed at the end.

    Every function of the script that talks to GitHub is an [async] function
    whose calls are awaited one after the other, so the embedding is a state
    and exception monad: the state holds what the script mutates (the
    counters, the organization cache), the requests sent so far and the
    console; a rejected promise is an exception.  GitHub itself is an oracle
    that answers a request from the requests that came before it.

    Strings are byte strings: the lines the script prints are kept byte for
    byte as the source file has them, its non-ASCII characters included.

    The development has four parts: the script; the vocabulary of the
    properties and a GitHub to run the script against; lemmas about the
    monad, about each function and about the loop over the repositories;
    and the properties themselves, numbered as the claims they settle. *)

From Stdlib Require Import Ascii String.
From stdpp Require Import gmap strings list pretty.

Local Open Scope Z_scope.

(** ** JavaScript strings and arrays *)

Module Js.

(** [String.prototype.split] with a one-character separator. *)
Fixpoint split (sep : ascii) (s : string) : list string :=
  match s with
  | EmptyString => [EmptyString]
  | String c rest =>
      if decide (c = sep) then EmptyString :: split sep rest
      else match split sep rest with
           | [] => [String c EmptyString]
           | w :: ws => String c w :: ws
           end
  end.

(** [String.prototype.toLowerCase].  Logins are ASCII; on any string the
    characters outside [A-Z] whose lower case is an ASCII letter are
    U+0130 (to [i] and a combining dot) and U+212A (to [k]), none of which
    occurs in the word the script looks for, so lowering [A-Z] alone decides
    [includes "dependabot"] exactly as the script does. *)
Definition lower (c : ascii) : ascii :=
  let n := nat_of_ascii c in
  if (bool_decide (65 ≤ n)%nat && bool_decide (n ≤ 90)%nat)
  then ascii_of_nat (n + 32) else c.

Fixpoint toLowerCase (s : string) : string :=
  match s with
  | EmptyString => EmptyString
  | String c rest => String (lower c) (toLowerCase rest)
  end.

Fixpoint startsWith (needle s : string) : bool :=
  match needle, s with
  | EmptyString, _ => true
  | String _ _, EmptyString => false
  | String a needle', String b s' => bool_decide (a = b) && startsWith needle' s'
  end.

(** [String.prototype.includes]. *)
Fixpoint includes (needle s : string) : bool :=
  startsWith needle s ||
  match s with
  | EmptyString => false
  | String _ rest => includes needle rest
  end.

Fixpoint spaces (n : nat) : string :=
  match n with
  | O => EmptyString
  | S k => String " " (spaces k)
  end.

(** [String.prototype.padStart] with the default filler, a space. *)
Definition padStart (targetLength : nat) (s : string) : string :=
  spaces (targetLength - String.length s) +:+ s.

(** The truth value of a string or [undefined]. *)
Definition truthy (v : option string) : bool :=
  match v with
  | None => false
  | Some s => negb (bool_decide (s = EmptyString))
  end.

(** A thrown value: an [Error] with its [name] and [message], and the
    [status] that Octokit's [RequestError] carries. *)
Record Error := { name : string; message : string; status : option Z }.

(** [Error.prototype.toString]. *)
Definition toString (e : Error) : string :=
  if bool_decide (message e = "") then name e
  else if bool_decide (name e = "") then message e
  else name e +:+ ": " +:+ message e.

(** Reading a property of [null]. *)
Definition TypeError (property : string) : Error :=
  {| name := "TypeError";
     message := "Cannot read properties of null (reading '" +:+ property +:+ "')";
     status := None |}.

(** The outcome of an awaited promise. *)
Inductive Settled (A : Type) : Type :=
| Ok (a : A)
| Throw (e : Error).
Arguments Ok {A} a.
Arguments Throw {A} e.

(** [Array.prototype.some] with a callback that may throw: it stops at the
    first element the callback accepts, and at the first throw. *)
Fixpoint some {A} (p : A → Settled bool) (l : list A) : Settled bool :=
  match l with
  | [] => Ok false
  | x :: rest =>
      match p x with
      | Ok true => Ok true
      | Ok false => some p rest
      | Throw e => Throw e
      end
  end.

End Js.

Import Js (Ok, Throw).

(** ** What GitHub sends *)

(** A user, as far as the script reads it. *)
Record User := { login : string }.

(** The head of a pull request, as far as the script reads it. *)
Record GitRef := { sha : string }.

(** A pull request as [pulls.list] and [pulls.get] return it.  [user] may be
    [null]; [mergeable_state] is only there in the answer of [pulls.get]. *)
Record PullRequest := {
  number : Z;
  title : string;
  user : option User;
  head : GitRef;
  mergeable_state : option string
}.

Record CombinedStatus := { state : string }.

(** A review; its [user] may be [null]. *)
Record Review := { review_user : option User; review_state : string }.

(** The requests the script sends, with the parameters it gives them. *)
Inductive Call :=
| OrgsGet (org : string)
| PullsList (owner repo state : string)
| PullsGet (owner repo : string) (pull_number : Z)
| UpdateBranch (owner repo : string) (pull_number : Z) (expected_head_sha : string)
| GetCombinedStatusForRef (owner repo ref : string)
| GetAuthenticated
| ListReviews (owner repo : string) (pull_number : Z)
| CreateReview (owner repo : string) (pull_number : Z) (event body : string).

#[global] Instance Call_eq_dec : EqDecision Call.
Proof. solve_decision. Defined.

(** The [data] of the answer to each request. *)
Definition Data (c : Call) : Type :=
  match c with
  | OrgsGet _ => unit
  | PullsList _ _ _ => list PullRequest
  | PullsGet _ _ _ => PullRequest
  | UpdateBranch _ _ _ _ => unit
  | GetCombinedStatusForRef _ _ _ => CombinedStatus
  | GetAuthenticated => User
  | ListReviews _ _ _ => list Review
  | CreateReview _ _ _ _ _ => unit
  end.

(** GitHub behind the client: the answer to a request, given the requests
    sent before it (oldest first).  The script is sequential, so any sequence
    of answers GitHub can give is one such function. *)
Definition Octokit : Type := list Call → ∀ c : Call, Js.Settled (Data c).

(** ** What the script mutates *)

(** The counters of [main].  They are JavaScript numbers that only [++]
    changes, once per line of the repository list or per listed pull request
    at most, so they stay in the range where [++] is exact. *)
Record Stats := {
  approved : N;
  skipped : N;
  updated : N;
  saml_blocked : N
}.

(** What [checkSAMLAccess] returns; [error] is [null] with access. *)
Record AccessInfo := { hasAccess : bool; error : option string }.

Inductive Console := ConsoleLog | ConsoleWarn | ConsoleError.

(** The counters and the cache of [main], the requests sent so far, oldest
    first, and the lines printed so far. *)
Record State := {
  stats : Stats;
  orgAccessCache : gmap string AccessInfo;
  calls : list Call;
  console : list (Console * string)
}.

Definition with_stats (f : Stats → Stats) (s : State) : State :=
  {| stats := f (stats s); orgAccessCache := orgAccessCache s;
     calls := calls s; console := console s |}.

Definition with_cache (f : gmap string AccessInfo → gmap string AccessInfo)
    (s : State) : State :=
  {| stats := stats s; orgAccessCache := f (orgAccessCache s);
     calls := calls s; console := console s |}.

Definition sent (c : Call) (s : State) : State :=
  {| stats := stats s; orgAccessCache := orgAccessCache s;
     calls := calls s ++ [c]; console := console s |}.

Definition printed (k : Console) (line : string) (s : State) : State :=
  {| stats := stats s; orgAccessCache := orgAccessCache s;
     calls := calls s; console := console s ++ [(k, line)] |}.

Definition inc_approved (st : Stats) : Stats :=
  {| approved := approved st + 1; skipped := skipped st;
     updated := updated st; saml_blocked := saml_blocked st |}.

Definition inc_skipped (st : Stats) : Stats :=
  {| approved := approved st; skipped := skipped st + 1;
     updated := updated st; saml_blocked := saml_blocked st |}.

Definition inc_updated (st : Stats) : Stats :=
  {| approved := approved st; skipped := skipped st;
     updated := updated st + 1; saml_blocked := saml_blocked st |}.

Definition inc_saml_blocked (st : Stats) : Stats :=
  {| approved := approved st; skipped := skipped st;
     updated := updated st; saml_blocked := saml_blocked st + 1 |}.

(** ** The monad of the script *)

Definition Run (A : Type) : Type := State → Js.Settled A * State.

Definition ret {A} (a : A) : Run A := λ s, (Ok a, s).

Definition bind {A B} (m : Run A) (k : A → Run B) : Run B :=
  λ s, match m s with
       | (Ok a, s') => k a s'
       | (Throw e, s') => (Throw e, s')
       end.

(** [try { m } catch (err) { handler err }]. *)
Definition try_catch {A} (m : Run A) (handler : Js.Error → Run A) : Run A :=
  λ s, match m s with
       | (Ok a, s') => (Ok a, s')
       | (Throw e, s') => handler e s'
       end.

Definition throw {A} (e : Js.Error) : Run A := λ s, (Throw e, s).

Definition modify (f : State → State) : Run unit := λ s, (Ok tt, f s).

Definition gets {A} (f : State → A) : Run A := λ s, (Ok (f s), s).

Definition lift {A} (r : Js.Settled A) : Run A := λ s, (r, s).

Declare Scope run_scope.
Delimit Scope run_scope with run.
Bind Scope run_scope with Run.

Notation "'let*' x := m 'in' k" := (bind m (λ x, k))
  (at level 100, x name, m at next level, k at level 200, right associativity,
   format "'[v' 'let*'  x  :=  m  'in' '/' k ']'") : run_scope.
Notation "m ;;; k" := (bind m (λ _, k))
  (at level 100, k at level 200, right associativity,
   format "'[v' m  ;;; '/' k ']'") : run_scope.

Local Open Scope run_scope.

(** [for (const x of l) { body x }], where [continue] ends [body x]. *)
Fixpoint for_of {A} (l : list A) (body : A → Run unit) : Run unit :=
  match l with
  | [] => ret tt
  | x :: rest => body x ;;; for_of rest body
  end.

Definition console_log (line : string) : Run unit := modify (printed ConsoleLog line).
Definition console_warn (line : string) : Run unit := modify (printed ConsoleWarn line).
Definition console_error (line : string) : Run unit := modify (printed ConsoleError line).

Definition TOKEN_FILE : string := "token.txt".

Definition newline : string := String "010" EmptyString.

Section Approver.

Variable octokit : Octokit.

(** [await octokit....(params)]: the request joins the ones sent, and the
    promise settles with GitHub's answer. *)
Definition request (c : Call) : Run (Data c) :=
  λ s, (octokit (calls s) c, sent c s).

(** Lines 49-66. *)
Definition isPullRequestGreen (owner repo : string) (pr : PullRequest) : Run bool :=
  try_catch
    (let* data := request (GetCombinedStatusForRef owner repo (sha (head pr))) in
     ret (bool_decide (state data = "success")))
    (λ error,
       console_error ("    Error fetching check runs for PR #" +:+ pretty (number pr)
                      +:+ ": " +:+ Js.message error) ;;;
       ret false).

Definition outdatedStates : list string := ["behind"; "blocked"].

(** [outdatedStates.includes(pr.mergeable_state)]. *)
Definition is_outdated (pr : PullRequest) : bool :=
  match mergeable_state pr with
  | Some st => bool_decide (st ∈ outdatedStates)
  | None => false
  end.

(** Lines 74-111. *)
Definition syncBranchIfBehind (owner repo : string) (pr : PullRequest) : Run bool :=
  if negb (is_outdated pr) then ret false
  else
    console_log ("    PR #" +:+ pretty (number pr) +:+ " is "
                 +:+ default "undefined" (mergeable_state pr)
                 +:+ ". Queuing update-branchâ€¦") ;;;
    try_catch
      (request (UpdateBranch owner repo (number pr) (sha (head pr))) ;;;
       console_log "      âžœ update-branch request queued" ;;;
       ret true)
      (λ err,
         (if bool_decide (Js.status err = Some 422)
          then console_log ("      update-branch skipped: " +:+ Js.message err)
          else console_error
                 ("      âœ– couldnâ€™t update branch: "
                  +:+ (if Js.truthy (Some (Js.message err)) then Js.message err
                       else Js.toString err))) ;;;
         ret false).

(** The callback of [reviews.some] at lines 128-130. *)
Definition approved_by (currentUserLogin : string) (r : Review) : Js.Settled bool :=
  match review_user r with
  | None => Throw (Js.TypeError "login")
  | Some u =>
      Ok (bool_decide (login u = currentUserLogin)
          && bool_decide (review_state r = "APPROVED"))
  end.

(** Lines 113-146. *)
Definition approvePullRequest (owner repo : string) (pullNumber : Z) : Run unit :=
  let* me := request GetAuthenticated in
  let currentUserLogin := login me in
  let* reviews := request (ListReviews owner repo pullNumber) in
  let* alreadyApproved := lift (Js.some (approved_by currentUserLogin) reviews) in
  if alreadyApproved : bool then
    console_log ("      Already approved by " +:+ currentUserLogin +:+ ". Skipping...")
  else
    request (CreateReview owner repo pullNumber "APPROVE" "") ;;;
    console_log ("      Approved by " +:+ currentUserLogin +:+ ".").

(** Lines 151-172. *)
Definition checkSAMLAccess (owner : string) : Run AccessInfo :=
  try_catch
    (request (OrgsGet owner) ;;;
     ret {| hasAccess := true; error := None |})
    (λ error,
       if bool_decide (Js.status error = Some 403) then
         ret {| hasAccess := false;
                error := Some ("SAML SSO: Token not authorized for organization '"
                               +:+ owner
                               +:+ "'. Please authorize your token at: https://github.com/settings/tokens") |}
       else if bool_decide (Js.status error = Some 401) then
         ret {| hasAccess := false;
                error := Some ("Authentication failed: Invalid or expired token. Please check your token in "
                               +:+ TOKEN_FILE) |}
       else ret {| hasAccess := true; error := None |}).

(** The filter of lines 222-224:
    [pr.user?.login?.toLowerCase().includes("dependabot")]. *)
Definition is_dependabot (pr : PullRequest) : bool :=
  match user pr with
  | Some u => Js.includes "dependabot" (Js.toLowerCase (login u))
  | None => false
  end.

(** The body of the inner loop, lines 232-260. *)
Definition triage_pull_request (owner repo : string) (pr : PullRequest) : Run unit :=
  console_log ("  Found Dependabot PR #" +:+ pretty (number pr) +:+ " -> " +:+ title pr) ;;;
  let* prDetails := request (PullsGet owner repo (number pr)) in
  let* updated := syncBranchIfBehind owner repo prDetails in
  if updated : bool then
    modify (with_stats inc_updated)
  else
    let* green := isPullRequestGreen owner repo pr in
    if negb green then
      console_log ("    PR #" +:+ pretty (number pr) +:+ " is NOT green. Skipping approval.") ;;;
      modify (with_stats inc_skipped)
    else
      console_log ("    PR #" +:+ pretty (number pr) +:+ " is green! Approving...") ;;;
      approvePullRequest owner repo (number pr) ;;;
      modify (with_stats inc_approved).

(** The [try] block, lines 214-260. *)
Definition triage_repository (owner repo : string) : Run unit :=
  let* pullRequests := request (PullsList owner repo "open") in
  let dependabotPRs := filter (λ pr, is_dependabot pr = true) pullRequests in
  if bool_decide (length dependabotPRs = 0%nat) then
    console_log "  No open Dependabot PRs found."
  else
    for_of dependabotPRs (triage_pull_request owner repo).

(** The [catch] block, lines 261-272. *)
Definition triage_failed (owner repo : string) (err : Js.Error) : Run unit :=
  if bool_decide (Js.status err = Some 403) then
    console_error ("âŒ SAML SSO: Access denied to " +:+ owner +:+ "/" +:+ repo
                   +:+ ". Token may need reauthorization.") ;;;
    modify (with_stats inc_saml_blocked)
  else if bool_decide (Js.status err = Some 401) then
    console_error ("âŒ Authentication failed for " +:+ owner +:+ "/" +:+ repo
                   +:+ ". Check your token.") ;;;
    modify (with_stats inc_saml_blocked)
  else
    console_error ("Error processing " +:+ owner +:+ "/" +:+ repo +:+ ": "
                   +:+ Js.message err) ;;;
    modify (with_stats inc_skipped).

(** The [try] statement, lines 213-272. *)
Definition try_triage (owner repo : string) : Run unit :=
  try_catch (triage_repository owner repo) (triage_failed owner repo).

(** Lines 199-211: the access check, cached per organization.  It yields
    whether the repository may be triaged. *)
Definition access_gate (owner : string) : Run bool :=
  let* cache := gets orgAccessCache in
  (if negb (bool_decide (is_Some (cache !! owner))) then
     console_log ("  Checking SAML SSO access for organization: " +:+ owner) ;;;
     let* accessCheck := checkSAMLAccess owner in
     modify (with_cache <[owner := accessCheck]>)
   else ret tt) ;;;
  let* cache := gets orgAccessCache in
  match cache !! owner with
  | None => throw (Js.TypeError "hasAccess")
  | Some accessInfo =>
      if negb (hasAccess accessInfo) then
        console_error ("  âŒ " +:+ default "null" (error accessInfo)) ;;;
        modify (with_stats inc_saml_blocked) ;;;
        ret false
      else ret true
  end.

(** Lines 199-272: the gate, and behind it the [try] statement. *)
Definition gated_triage (owner repo : string) : Run unit :=
  let* allowed := access_gate owner in
  if allowed : bool then try_triage owner repo
  else ret tt.

(** The body of the outer loop, lines 188-273. *)
Definition process_repository (fullName : string) : Run unit :=
  let parts := Js.split "/" fullName in
  let owner := parts !! 0%nat in
  let repo := parts !! 1%nat in
  if negb (Js.truthy owner) || negb (Js.truthy repo) then
    console_warn ("Skipping invalid line in repos file: " +:+ String "034" fullName
                  +:+ String "034" ". Must be " +:+ String "034" "owner/repo"
                  +:+ String "034" ".")
  else
    let owner := default "" owner in
    let repo := default "" repo in
    console_log (newline +:+ "Processing repository: " +:+ owner +:+ "/" +:+ repo) ;;;
    gated_triage owner repo.

Definition rule : string :=
  "â”€â”€â”€â”€â”€â”€â”€â”€â”€â”€â”€â”€â”€â”€â”€â”€â”€â”€â”€â”€â”€â”€â”€â”€â”€â”€â”€â”€â”€".

Definition count (n : N) : string := Js.padStart 3 (pretty n).

(** The lines of the summary that show a counter, lines 280-284. *)
Definition approved_line (st : Stats) : string :=
  "âœ… Approved    : " +:+ count (approved st) +:+ " PRs".

Definition skipped_line (st : Stats) : string :=
  "â­ï¸  Skipped     : " +:+ count (skipped st) +:+ " PRs".

Definition updated_line (st : Stats) : string :=
  "ðŸ”„ Updated     : " +:+ count (updated st) +:+ " PRs".

Definition saml_blocked_line (st : Stats) : string :=
  "ðŸ”’ SAML Blocked: " +:+ count (saml_blocked st) +:+ " repos".

(** Lines 275-294. *)
Definition print_summary (st : Stats) : Run unit :=
  console_log (newline +:+ rule) ;;;
  console_log "ðŸ“Š  Summary" ;;;
  console_log rule ;;;
  console_log (approved_line st) ;;;
  console_log (skipped_line st) ;;;
  console_log (updated_line st) ;;;
  (if bool_decide (0 < saml_blocked st)%N then
     console_log (saml_blocked_line st)
   else ret tt) ;;;
  console_log rule ;;;
  if bool_decide (0 < saml_blocked st)%N then
    console_log (newline +:+ "ðŸ” SAML SSO Issue Detected:") ;;;
    console_log "   Your token needs authorization for SSO-enabled organizations." ;;;
    console_log "   Visit: https://github.com/settings/tokens" ;;;
    console_log ("   Find your token and click 'Enable SSO' for affected organizations."
                 +:+ newline)
  else ret tt.

(** Lines 177-295. *)
Definition main (repos : list string) : Run unit :=
  modify (with_stats (λ _, {| approved := 0; skipped := 0; updated := 0; saml_blocked := 0 |})) ;;;
  modify (with_cache (λ _, ∅)) ;;;
  for_of repos process_repository ;;;
  let* st := gets stats in
  print_summary st.

End Approver.

(** ** Before [main]: the token and the repository list, lines 11-40 *)

Module Text.

Definition bytes (codes : list nat) : string :=
  string_of_list_ascii (ascii_of_nat <$> codes).

(** The characters [String.prototype.trim] removes, in UTF-8: the white
    space and the line terminators of ECMAScript, that is tab, line feed,
    vertical tab, form feed, carriage return, space, U+00A0, U+1680, U+2000
    to U+200A, U+2028, U+2029, U+202F, U+205F, U+3000 and U+FEFF. *)
Definition whitespace : list string :=
  bytes <$>
    [ [9]; [10]; [11]; [12]; [13]; [32];
      [194; 160]; [225; 154; 128];
      [226; 128; 128]; [226; 128; 129]; [226; 128; 130]; [226; 128; 131];
      [226; 128; 132]; [226; 128; 133]; [226; 128; 134]; [226; 128; 135];
      [226; 128; 136]; [226; 128; 137]; [226; 128; 138];
      [226; 128; 168]; [226; 128; 169]; [226; 128; 175];
      [226; 129; 159]; [227; 128; 128]; [239; 187; 191] ]%nat.

Fixpoint reverse_onto (s acc : string) : string :=
  match s with
  | EmptyString => acc
  | String c rest => reverse_onto rest (String c acc)
  end.

Definition reverse (s : string) : string := reverse_onto s EmptyString.

(** What is left of [s] after [prefix], when [s] starts with it. *)
Fixpoint strip (prefix s : string) : option string :=
  match prefix, s with
  | EmptyString, _ => Some s
  | String _ _, EmptyString => None
  | String a prefix', String b s' =>
      if bool_decide (a = b) then strip prefix' s' else None
  end.

(** What is left of [s] after one of [ws], when [s] starts with one. *)
Fixpoint strip_any (ws : list string) (s : string) : option string :=
  match ws with
  | [] => None
  | w :: ws' =>
      match strip w s with
      | Some rest => Some rest
      | None => strip_any ws' s
      end
  end.

(** Removing the [ws] at the start of [s], at most [fuel] of them. *)
Fixpoint strip_all (ws : list string) (fuel : nat) (s : string) : string :=
  match fuel with
  | O => s
  | S fuel' =>
      match strip_any ws s with
      | Some rest => strip_all ws fuel' rest
      | None => s
      end
  end.

Definition trimStart (s : string) : string :=
  strip_all whitespace (String.length s) s.

Definition trimEnd (s : string) : string :=
  reverse (strip_all (reverse <$> whitespace) (String.length s) (reverse s)).

(** [String.prototype.trim]. *)
Definition trim (s : string) : string := trimEnd (trimStart s).

End Text.

Definition REPOS_FILE : string := "repos.txt".

(** [new Error(message)]. *)
Definition new_Error (message : string) : Js.Error :=
  {| Js.name := "Error"; Js.message := message; Js.status := None |}.

Section Startup.

(** [fs.readFileSync(path, "utf-8")]: the text of the file, or the error
    thrown. *)
Variable readFileSync : string → Js.Settled string.

(** The [try] block of lines 13-17: the token, or what the [catch] block
    gets. *)
Definition read_token : Js.Settled string :=
  match readFileSync TOKEN_FILE with
  | Ok content =>
      let GITHUB_TOKEN := Text.trim content in
      if negb (Js.truthy (Some GITHUB_TOKEN))
      then Throw (new_Error "Token file is empty")
      else Ok GITHUB_TOKEN
  | Throw err => Throw err
  end.

(** The [try] block of lines 25-35. *)
Definition read_repos : Js.Settled (list string) :=
  match readFileSync REPOS_FILE with
  | Ok content =>
      let repos :=
        filter (λ line, Js.truthy (Some line) = true)
          (Text.trim <$> Js.split "010" content) in
      if bool_decide (length repos = 0%nat)
      then Throw (new_Error "No valid repos found in file")
      else Ok repos
  | Throw err => Throw err
  end.

(** [new Octokit({ auth })]: GitHub as the token sees it. *)
Variable client : string → Octokit.

(** How [console.error] shows an error object. *)
Variable inspect : Js.Error → string.

(** The script from its first line to its last: the exit code of the
    process, and the state it leaves.  [process.exit(1)] ends it in the two
    [catch] blocks of the start and in the handler of line 298; a script
    that runs to its end exits with 0. *)
Definition script (s : State) : Z * State :=
  match read_token with
  | Throw err =>
      (1, printed ConsoleError
            ("Error reading token from " +:+ String "034" TOKEN_FILE
             +:+ String "034" ": " +:+ Js.message err) s)
  | Ok GITHUB_TOKEN =>
      match read_repos with
      | Throw err =>
          (1, printed ConsoleError
                ("Error reading repositories from " +:+ String "034" REPOS_FILE
                 +:+ String "034" ": " +:+ Js.message err) s)
      | Ok repos =>
          match main (client GITHUB_TOKEN) repos s with
          | (Ok _, s') => (0, s')
          | (Throw err, s') =>
              (1, printed ConsoleError ("Fatal error: " +:+ inspect err) s')
          end
      end
  end.

End Startup.

(** * Vocabulary for the properties *)

Definition outcome {A} (m : Run A) (s : State) : Js.Settled A := fst (m s).
Definition after {A} (m : Run A) (s : State) : State := snd (m s).

(** The requests a computation sends when started in [s]. *)
Definition issued {A} (m : Run A) (s : State) : list Call :=
  drop (length (calls s)) (calls (after m s)).

(** A relation between states that every run of [m] keeps. *)
Definition keeps (R : relation State) {A} (m : Run A) : Prop :=
  ∀ s, R s (after m s).

(** The requests the triage of the repository [owner/repo] can send. *)
Inductive TriageCall (owner repo : string) : Call → Prop :=
| triage_list st : TriageCall owner repo (PullsList owner repo st)
| triage_get n : TriageCall owner repo (PullsGet owner repo n)
| triage_update n h : TriageCall owner repo (UpdateBranch owner repo n h)
| triage_status ref : TriageCall owner repo (GetCombinedStatusForRef owner repo ref)
| triage_whoami : TriageCall owner repo GetAuthenticated
| triage_reviews n : TriageCall owner repo (ListReviews owner repo n)
| triage_review n ev body : TriageCall owner repo (CreateReview owner repo n ev body).

(** The updates of the counters the script makes. *)
Inductive Increment : (Stats → Stats) → Prop :=
| increment_approved : Increment inc_approved
| increment_skipped : Increment inc_skipped
| increment_updated : Increment inc_updated
| increment_saml_blocked : Increment inc_saml_blocked.

(** The organization cache is left as it is. *)
Definition same_cache (s s' : State) : Prop := orgAccessCache s' = orgAccessCache s.

(** Requests are only added, and the added ones satisfy [Q]. *)
Definition emits (Q : Call → Prop) (s s' : State) : Prop :=
  ∃ t, calls s' = calls s ++ t ∧ Forall Q t.

(** No counter decreases. *)
Definition stats_le (a b : Stats) : Prop :=
  (approved a ≤ approved b)%N ∧ (skipped a ≤ skipped b)%N ∧
  (updated a ≤ updated b)%N ∧ (saml_blocked a ≤ saml_blocked b)%N.

Definition counters_grow (s s' : State) : Prop := stats_le (stats s) (stats s').

(** A review by which [me] approved. *)
Definition approved_by_identity (me : User) (rv : Review) : Prop :=
  ∃ u, review_user rv = Some u ∧ login u = login me ∧ review_state rv = "APPROVED".


(** The requests of a pass over the pull request [pr] of [owner/repo], as
    listed: the fresh fetch, the status query, the reviews and the review. *)
Definition fetch_call (owner repo : string) (pr : PullRequest) : Call :=
  PullsGet owner repo (number pr).

Definition status_call (owner repo : string) (pr : PullRequest) : Call :=
  GetCombinedStatusForRef owner repo (sha (head pr)).

Definition reviews_call (owner repo : string) (pr : PullRequest) : Call :=
  ListReviews owner repo (number pr).

Definition approve_call (owner repo : string) (pr : PullRequest) : Call :=
  CreateReview owner repo (number pr) "APPROVE" "".

(** The update of the branch of a pull request as fetched afresh. *)
Definition update_call (owner repo : string) (details : PullRequest) : Call :=
  UpdateBranch owner repo (number details) (sha (head details)).

Definition is_update (c : Call) : bool :=
  match c with UpdateBranch _ _ _ _ => true | _ => false end.

Definition is_status_query (c : Call) : bool :=
  match c with GetCombinedStatusForRef _ _ _ => true | _ => false end.

Definition is_review_call (c : Call) : bool :=
  match c with ListReviews _ _ _ | CreateReview _ _ _ _ _ => true | _ => false end.

Definition no_stats : Stats :=
  {| approved := 0; skipped := 0; updated := 0; saml_blocked := 0 |}.

(** The state of a process that has not done anything yet. *)
Definition fresh : State :=
  {| stats := no_stats; orgAccessCache := ∅; calls := []; console := [] |}.

(** The owner a request is about; [GetAuthenticated] is about none. *)
Definition call_owner (c : Call) : option string :=
  match c with
  | OrgsGet org => Some org
  | PullsList owner _ _ | PullsGet owner _ _ | UpdateBranch owner _ _ _
  | GetCombinedStatusForRef owner _ _ | ListReviews owner _ _
  | CreateReview owner _ _ _ _ => Some owner
  | GetAuthenticated => None
  end.

(** The owner and the repository a line of the repository list names, when
    the script accepts the line: both are there and neither is empty. *)
Definition names (fullName : string) : option (string * string) :=
  match Js.split "/" fullName with
  | owner :: repo :: _ =>
      if bool_decide (owner ≠ "" ∧ repo ≠ "") then Some (owner, repo) else None
  | _ => None
  end.

(** The owners the accepted lines of a repository list name. *)
Definition owners (repos : list string) : list string :=
  fst <$> omap names repos.

(** The state in which [main] enters its loop. *)
Definition started (s : State) : State :=
  with_cache (λ _, ∅) (with_stats (λ _, no_stats) s).

(** The lines [print_summary] prints. *)
Definition summary (st : Stats) : list (Console * string) :=
  console (after (print_summary st) fresh).

(** The requests of the loop so far hold one probe of each organization in
    the cache, and none of any other. *)
Definition probed_as_cached (t : list Call) (s : State) : Prop :=
  ∀ org, count_occ Call_eq_dec t (OrgsGet org)
         = match orgAccessCache s !! org with Some _ => 1%nat | None => 0%nat end.

(** A request that, if it is about the organization [org] at all, is the
    probe of [org]. *)
Definition only_probes (org : string) (c : Call) : Prop :=
  call_owner c = Some org → c = OrgsGet org.

(** The cache holds no access to [org]. *)
Definition denied (org : string) (s : State) : Prop :=
  ∀ a, orgAccessCache s !! org = Some a → hasAccess a = false.

(** The line the gate prints for a repository of an organization without
    access, line 208. *)
Definition access_denied_line (a : AccessInfo) : string :=
  "  âŒ " +:+ default "null" (error a).

(** Every entry of the cache is what [checkSAMLAccess] answered when the
    organization was probed, earlier in the run. *)
Definition cached_as_probed (octokit : Octokit) (s : State) : Prop :=
  ∀ org a,
    orgAccessCache s !! org = Some a →
    ∃ s0 later,
      calls s = calls s0 ++ OrgsGet org :: later ∧
      outcome (checkSAMLAccess octokit org) s0 = Ok a.

(** * Vocabulary for further properties *)

(** The character [c] occurs in [s]. *)
Fixpoint occurs (c : ascii) (s : string) : bool :=
  match s with
  | EmptyString => false
  | String a rest => bool_decide (a = c) || occurs c rest
  end.

(** [Array.prototype.join] with a one-character separator. *)
Fixpoint join (sep : ascii) (l : list string) : string :=
  match l with
  | [] => EmptyString
  | x :: rest =>
      match rest with
      | [] => x
      | _ => x +:+ String sep (join sep rest)
      end
  end.

(** The line [fullName] is [owner/repo], or [owner/repo/] and more, with an
    owner and a repository that are not empty (and hold no slash). *)
Definition names_repository (fullName owner repo : string) : Prop :=
  owner ≠ "" ∧ repo ≠ "" ∧ occurs "/" owner = false ∧ occurs "/" repo = false ∧
  (fullName = owner +:+ "/" +:+ repo ∨
   ∃ more, fullName = owner +:+ "/" +:+ repo +:+ "/" +:+ more).

(** The warning of line 191. *)
Definition invalid_line_warning (fullName : string) : string :=
  "Skipping invalid line in repos file: " +:+ String "034" fullName
  +:+ String "034" ". Must be " +:+ String "034" "owner/repo" +:+ String "034" ".".

(** The counters are left as they are. *)
Definition same_stats (s s' : State) : Prop := stats s' = stats s.

(** The [try] block after the listing answered [pullRequests], lines
    221-260. *)
Definition triage_listed (octokit : Octokit) (owner repo : string)
    (pullRequests : list PullRequest) : Run unit :=
  let dependabotPRs := filter (λ pr, is_dependabot pr = true) pullRequests in
  if bool_decide (length dependabotPRs = 0%nat) then
    console_log "  No open Dependabot PRs found."
  else
    for_of dependabotPRs (triage_pull_request octokit owner repo).

(** A request about the pull request [pr] of [owner/repo] as the listing
    shows it: its fetch, the status query for its head, the listing of its
    reviews, its approval. *)
Definition about_listed (owner repo : string) (pr : PullRequest) (c : Call) : Prop :=
  c = PullsGet owner repo (number pr) ∨
  c = GetCombinedStatusForRef owner repo (sha (head pr)) ∨
  c = ListReviews owner repo (number pr) ∨
  c = CreateReview owner repo (number pr) "APPROVE" "".

(** What the triage of the pull requests in [prs] may send. *)
Definition about_some (owner repo : string) (prs : list PullRequest) (c : Call) : Prop :=
  c = GetAuthenticated ∨ is_update c = true ∨
  ∃ pr, pr ∈ prs ∧ is_dependabot pr = true ∧ about_listed owner repo pr c.

(** The pull requests a run has counted. *)
Definition pull_requests_counted (st : Stats) : N :=
  (approved st + skipped st + updated st)%N.

(** A request of the run over the lines [repos]: the probe of an owner or
    a request of the triage of a repository that an accepted line names. *)
Definition about_line (repos : list string) (c : Call) : Prop :=
  ∃ owner repo,
    (owner, repo) ∈ omap names repos ∧ (c = OrgsGet owner ∨ TriageCall owner repo c).

(** A string put together from members of [ws]. *)
Inductive made_of (ws : list string) : string → Prop :=
| made_of_nil : made_of ws ""
| made_of_cons w s : w ∈ ws → made_of ws s → made_of ws (w +:+ s).

(** Nothing but white space. *)
Definition blank (s : string) : Prop := made_of Text.whitespace s.

(** No white space at the start of [s], none at its end. *)
Definition trimmed (s : string) : Prop :=
  ∀ w rest, w ∈ Text.whitespace → s ≠ w +:+ rest ∧ s ≠ rest +:+ w.

(** No member of [ws] is the start of another. *)
Definition prefix_free (ws : list string) : bool :=
  forallb (λ w,
    forallb (λ w',
      match Text.strip w w' with
      | Some _ => bool_decide (w = w')
      | None => true
      end) ws) ws.

(** A reader of files that finds [token] in the token file and [list] in
    the list of repositories, and nothing else. *)
Definition files (token list : option string) (path : string) : Js.Settled string :=
  let found (text : option string) :=
    match text with
    | Some content => Ok content
    | None =>
        Throw {| Js.name := "Error";
                 Js.message := "ENOENT: no such file or directory, open '" +:+ path +:+ "'";
                 Js.status := None |}
    end in
  if bool_decide (path = TOKEN_FILE) then found token
  else if bool_decide (path = REPOS_FILE) then found list
  else found None.

(** * A GitHub to run the script against *)

Definition octocat : User := {| login := "octocat" |}.

Definition dependabot : User := {| login := "dependabot[bot]" |}.

(** Pull request 7 as the list of open pull requests shows it. *)
Definition bump : PullRequest :=
  {| number := 7; title := "Bump lodash from 4.17.20 to 4.17.21";
     user := Some dependabot; head := {| sha := "abc" |};
     mergeable_state := None |}.

(** Pull request 8, listed after it. *)
Definition bump_next : PullRequest :=
  {| number := 8; title := "Bump minimist from 1.2.5 to 1.2.6";
     user := Some dependabot; head := {| sha := "123" |};
     mergeable_state := None |}.

(** Pull request 7 fetched again, after its head moved to [def]. *)
Definition bump_details (mergeable : string) : PullRequest :=
  {| number := 7; title := "Bump lodash from 4.17.20 to 4.17.21";
     user := Some dependabot; head := {| sha := "def" |};
     mergeable_state := Some mergeable |}.

Definition approval : Review :=
  {| review_user := Some octocat; review_state := "APPROVED" |}.

Definition http_error (code : Z) (text : string) : Js.Error :=
  {| Js.name := "HttpError"; Js.message := text; Js.status := Some code |}.

(** A GitHub whose token belongs to [octocat], that gives fixed answers to
    the other requests, and that lists an approval by [octocat] on a pull
    request once a review of it was created. *)
Definition github (org : Js.Settled unit) (open : list PullRequest)
    (details : Js.Settled PullRequest) (update : Js.Settled unit)
    (status : Js.Settled CombinedStatus) (create : Js.Settled unit) : Octokit :=
  λ h c,
    match c return Js.Settled (Data c) with
    | OrgsGet _ => org
    | PullsList _ _ _ => Ok open
    | PullsGet _ _ _ => details
    | UpdateBranch _ _ _ _ => update
    | GetCombinedStatusForRef _ _ _ => status
    | GetAuthenticated => Ok octocat
    | ListReviews owner repo n =>
        Ok (if bool_decide (CreateReview owner repo n "APPROVE" "" ∈ h)
            then [approval] else [])
    | CreateReview _ _ _ _ _ => create
    end.

(** Pull request 7 is clean and green, and nobody reviewed it. *)
Definition github_green : Octokit :=
  github (Ok tt) [bump] (Ok (bump_details "clean")) (Ok tt)
    (Ok {| state := "success" |}) (Ok tt).

(** Pull request 7 is behind, and GitHub refuses to update its branch. *)
Definition github_update_rejected : Octokit :=
  github (Ok tt) [bump] (Ok (bump_details "behind"))
    (Throw (http_error 422 "merge conflict between base and head"))
    (Ok {| state := "success" |}) (Ok tt).

(** Pull request 7 is behind, and GitHub queues the update of its branch. *)
Definition github_update_queued : Octokit :=
  github (Ok tt) [bump] (Ok (bump_details "behind")) (Ok tt)
    (Ok {| state := "success" |}) (Ok tt).

(** Pull request 7 is clean and green, and GitHub refuses the review. *)
Definition github_review_refused : Octokit :=
  github (Ok tt) [bump] (Ok (bump_details "clean")) (Ok tt)
    (Ok {| state := "success" |})
    (Throw (http_error 422 "Validation Failed")).

(** The token is not authorized for the organization. *)
Definition github_forbidden : Octokit :=
  github (Throw (http_error 403 "Resource protected by organization SAML enforcement"))
    [bump] (Ok (bump_details "clean")) (Ok tt) (Ok {| state := "success" |}) (Ok tt).

(** Two pull requests of Dependabot are open, and fetching a pull request
    fails. *)
Definition github_fetch_fails : Octokit :=
  github (Ok tt) [bump; bump_next] (Throw (http_error 500 "Server Error")) (Ok tt)
    (Ok {| state := "success" |}) (Ok tt).

(** Pull request 7 is clean, and its checks are still running. *)
Definition github_pending : Octokit :=
  github (Ok tt) [bump] (Ok (bump_details "clean")) (Ok tt)
    (Ok {| state := "pending" |}) (Ok tt).

(** A review whose author is gone. *)
Definition ghost_review : Review :=
  {| review_user := None; review_state := "COMMENTED" |}.

(** Pull request 7 is clean and green; its reviews are one without an author
    and, after it, an approval by [octocat]. *)
Definition github_ghost_review : Octokit :=
  λ h c,
    match c return Js.Settled (Data c) with
    | OrgsGet _ => Ok tt
    | PullsList _ _ _ => Ok [bump]
    | PullsGet _ _ _ => Ok (bump_details "clean")
    | UpdateBranch _ _ _ _ => Ok tt
    | GetCombinedStatusForRef _ _ _ => Ok {| state := "success" |}
    | GetAuthenticated => Ok octocat
    | ListReviews _ _ _ => Ok [ghost_review; approval]
    | CreateReview _ _ _ _ _ => Ok tt
    end.





(** * Reasoning about runs *)

Lemma run_eta {A} (m : Run A) s : m s = (outcome m s, after m s).
Proof. unfold outcome, after. by destruct (m s). Qed.

Lemma outcome_bind {A B} (m : Run A) (k : A → Run B) s :
  outcome (bind m k) s =
  match outcome m s with
  | Ok a => outcome (k a) (after m s)
  | Throw e => Throw e
  end.
Proof. unfold outcome, after, bind. by destruct (m s) as [[a|e] s']. Qed.

Lemma after_bind {A B} (m : Run A) (k : A → Run B) s :
  after (bind m k) s =
  match outcome m s with
  | Ok a => after (k a) (after m s)
  | Throw e => after m s
  end.
Proof. unfold outcome, after, bind. by destruct (m s) as [[a|e] s']. Qed.

Lemma outcome_try_catch {A} (m : Run A) h s :
  outcome (try_catch m h) s =
  match outcome m s with
  | Ok a => Ok a
  | Throw e => outcome (h e) (after m s)
  end.
Proof. unfold outcome, after, try_catch. by destruct (m s) as [[a|e] s']. Qed.

Lemma after_try_catch {A} (m : Run A) h s :
  after (try_catch m h) s =
  match outcome m s with
  | Ok a => after m s
  | Throw e => after (h e) (after m s)
  end.
Proof. unfold outcome, after, try_catch. by destruct (m s) as [[a|e] s']. Qed.

(** A loop over [l1 ++ l2] is the loop over [l1], then the loop over [l2]
    unless an iteration threw. *)
Lemma for_of_app {A} (l1 l2 : list A) body s :
  for_of (l1 ++ l2) body s = (for_of l1 body ;;; for_of l2 body) s.
Proof.
  revert s. induction l1 as [|x l1 IH]; intros s; [done|].
  simpl. unfold bind. destruct (body x s) as [[[]|e] s']; [|done].
  rewrite IH. reflexivity.
Qed.

(** An iteration that throws ends the loop: the elements after it are not
    looked at. *)
Lemma for_of_throw {A} (l1 l2 : list A) (x : A) body s e :
  outcome (for_of l1 body) s = Ok tt →
  outcome (body x) (after (for_of l1 body) s) = Throw e →
  for_of (l1 ++ x :: l2) body s = (Throw e, after (body x) (after (for_of l1 body) s)).
Proof.
  intros H1 Hx. rewrite for_of_app. unfold bind at 1.
  rewrite (run_eta (for_of l1 body)), H1. simpl. unfold bind.
  rewrite (run_eta (body x)), Hx. done.
Qed.

(** ** Relations every step of a computation keeps *)

Section Keeps.

Context (R : relation State) `{!PreOrder R}.

Lemma keeps_ret {A} (a : A) : keeps R (ret a).
Proof. intros s. reflexivity. Qed.

Lemma keeps_throw {A} e : keeps R (@throw A e).
Proof. intros s. reflexivity. Qed.

Lemma keeps_lift {A} (r : Js.Settled A) : keeps R (lift r).
Proof. intros s. reflexivity. Qed.

Lemma keeps_gets {A} (f : State → A) : keeps R (gets f).
Proof. intros s. reflexivity. Qed.

Lemma keeps_modify f : (∀ s, R s (f s)) → keeps R (modify f).
Proof. intros H s. apply H. Qed.

Lemma keeps_bind {A B} (m : Run A) (k : A → Run B) :
  keeps R m → (∀ a, keeps R (k a)) → keeps R (bind m k).
Proof.
  intros Hm Hk s. rewrite after_bind. destruct (outcome m s); [|apply Hm].
  etrans; [apply Hm | apply Hk].
Qed.

Lemma keeps_try_catch {A} (m : Run A) h :
  keeps R m → (∀ e, keeps R (h e)) → keeps R (try_catch m h).
Proof.
  intros Hm Hh s. rewrite after_try_catch. destruct (outcome m s); [apply Hm|].
  etrans; [apply Hm | apply Hh].
Qed.

Lemma keeps_for_of {A} (l : list A) body :
  (∀ x, x ∈ l → keeps R (body x)) → keeps R (for_of l body).
Proof.
  induction l as [|x l IH]; intros H; simpl; [apply keeps_ret|].
  apply keeps_bind; [apply H; left|].
  intros _. apply IH. intros y Hy. apply H. by right.
Qed.

End Keeps.

Create HintDb script discriminated.
#[global] Hint Constructors TriageCall Increment : script.

Ltac keeps_structure :=
  repeat first
    [ apply keeps_ret | apply keeps_throw | apply keeps_lift | apply keeps_gets
    | apply keeps_bind; try (solve [apply _]); [|intros ?]
    | apply keeps_try_catch; try (solve [apply _]); [|intros ?]
    | match goal with
      | |- keeps _ (if ?b then _ else _) => destruct b
      | |- keeps _ (match ?x with _ => _ end) => destruct x
      end ].

Section ScriptKeeps.

Context (R : relation State) `{!PreOrder R}.
Variable octokit : Octokit.

(** The requests whose sending [R] allows. *)
Variable allowed : Call → Prop.

Hypothesis R_printed : ∀ k line s, R s (printed k line s).
Hypothesis R_sent : ∀ c s, allowed c → R s (sent c s).
Hypothesis R_counted : ∀ inc s, Increment inc → R s (with_stats inc s).

Lemma keeps_request c : allowed c → keeps R (request octokit c).
Proof. intros H s. by apply R_sent. Qed.

Lemma keeps_console_log line : keeps R (console_log line).
Proof. apply keeps_modify. apply R_printed. Qed.

Lemma keeps_console_warn line : keeps R (console_warn line).
Proof. apply keeps_modify. apply R_printed. Qed.

Lemma keeps_console_error line : keeps R (console_error line).
Proof. apply keeps_modify. apply R_printed. Qed.

Lemma keeps_count inc : Increment inc → keeps R (modify (with_stats inc)).
Proof. intros H. apply keeps_modify. intros s. by apply R_counted. Qed.

Hint Resolve keeps_request keeps_console_log keeps_console_warn
  keeps_console_error keeps_count : script.

Section Repository.

Variables owner repo : string.
Hypothesis triage_allowed : ∀ c, TriageCall owner repo c → allowed c.

Lemma keeps_isPullRequestGreen pr :
  keeps R (isPullRequestGreen octokit owner repo pr).
Proof. unfold isPullRequestGreen. keeps_structure; auto with script. Qed.

Lemma keeps_syncBranchIfBehind pr :
  keeps R (syncBranchIfBehind octokit owner repo pr).
Proof. unfold syncBranchIfBehind. keeps_structure; auto with script. Qed.

Lemma keeps_approvePullRequest n :
  keeps R (approvePullRequest octokit owner repo n).
Proof. unfold approvePullRequest. keeps_structure; auto with script. Qed.

Hint Resolve keeps_isPullRequestGreen keeps_syncBranchIfBehind
  keeps_approvePullRequest : script.

Lemma keeps_triage_pull_request pr :
  keeps R (triage_pull_request octokit owner repo pr).
Proof. unfold triage_pull_request. keeps_structure; auto with script. Qed.

Lemma keeps_triage_repository :
  keeps R (triage_repository octokit owner repo).
Proof.
  unfold triage_repository. keeps_structure; auto with script.
  apply keeps_for_of; [apply _|]. intros pr _. apply keeps_triage_pull_request.
Qed.

Lemma keeps_triage_failed err : keeps R (triage_failed owner repo err).
Proof. unfold triage_failed. keeps_structure; auto with script. Qed.

Lemma keeps_try_triage : keeps R (try_triage octokit owner repo).
Proof.
  apply keeps_try_catch; [apply _ | apply keeps_triage_repository |].
  apply keeps_triage_failed.
Qed.

End Repository.

End ScriptKeeps.

(** ** Three such relations *)

#[global] Instance same_cache_preorder : PreOrder same_cache.
Proof.
  split; [by intros s|]. intros s1 s2 s3 H12 H23. unfold same_cache in *. congruence.
Qed.

#[global] Instance emits_preorder Q : PreOrder (emits Q).
Proof.
  split.
  - intros s. exists []. by rewrite app_nil_r.
  - intros s1 s2 s3 (t1 & E1 & F1) (t2 & E2 & F2). exists (t1 ++ t2). split.
    + by rewrite E2, E1, app_assoc.
    + by apply Forall_app.
Qed.

#[global] Instance stats_le_preorder : PreOrder stats_le.
Proof.
  split; [intros a; unfold stats_le; lia|].
  intros a b c. unfold stats_le. lia.
Qed.

#[global] Instance counters_grow_preorder : PreOrder counters_grow.
Proof.
  split; [intros s; unfold counters_grow; reflexivity|].
  intros s1 s2 s3. unfold counters_grow. intros. by etrans.
Qed.

Lemma Increment_le inc st : Increment inc → stats_le st (inc st).
Proof. intros []; unfold stats_le; simpl; lia. Qed.

Lemma emits_issued {A} Q (m : Run A) s :
  emits Q s (after m s) →
  calls (after m s) = calls s ++ issued m s ∧ Forall Q (issued m s).
Proof.
  intros (t & E & F). unfold issued. rewrite E, drop_app_length. done.
Qed.

Lemma emits_sent (Q : Call → Prop) c s : Q c → emits Q s (sent c s).
Proof. intros H. exists [c]. split; [done|]. by constructor. Qed.

Lemma emits_same_calls Q s s' : calls s' = calls s → emits Q s s'.
Proof. intros E. exists []. by rewrite app_nil_r. Qed.

Lemma emits_printed Q k line s : emits Q s (printed k line s).
Proof. by apply emits_same_calls. Qed.

Lemma emits_with_stats Q f s : emits Q s (with_stats f s).
Proof. by apply emits_same_calls. Qed.

Section Triage.

Variable octokit : Octokit.
Variables owner repo : string.

(** The triage of a repository leaves the organization cache alone, sends
    only requests about that repository, and lowers no counter. *)
Lemma try_triage_same_cache s :
  same_cache s (after (try_triage octokit owner repo) s).
Proof.
  apply (keeps_try_triage same_cache octokit (λ _, True));
    [done | done | done | done].
Qed.

Lemma try_triage_emits s :
  emits (TriageCall owner repo) s (after (try_triage octokit owner repo) s).
Proof.
  apply (keeps_try_triage _ octokit (TriageCall owner repo));
    [ | | | done].
  - apply emits_printed.
  - intros c s0 H. by apply emits_sent.
  - intros inc s0 _. apply emits_with_stats.
Qed.

Lemma approvePullRequest_emits n s :
  emits (TriageCall owner repo) s (after (approvePullRequest octokit owner repo n) s).
Proof.
  apply (keeps_approvePullRequest _ octokit (TriageCall owner repo));
    [ | | done].
  - apply emits_printed.
  - intros c s0 H. by apply emits_sent.
Qed.

Lemma try_triage_counters_grow s :
  counters_grow s (after (try_triage octokit owner repo) s).
Proof.
  apply (keeps_try_triage counters_grow octokit (λ _, True));
    [ | | | done].
  - intros k line s0. unfold counters_grow. reflexivity.
  - intros c s0 _. unfold counters_grow. reflexivity.
  - intros inc s0 H. by apply Increment_le.
Qed.

End Triage.

(** * One function at a time *)

(** Unfolding the monad on a state. *)
Ltac exec :=
  repeat (progress (unfold outcome, after, bind, try_catch, ret, lift, throw,
                      modify, gets, request, console_log, console_warn,
                      console_error in *; simpl in * )).

Ltac tidy :=
  rewrite <- ?app_assoc in *; simpl in *;
  rewrite ?drop_app_length, ?drop_all in *.

(** The next answer of GitHub the goal depends on. *)
Ltac case_answer :=
  match goal with
  | |- context [match ?o ?h ?c with Ok _ => _ | Throw _ => _ end] =>
      let E := fresh "E" in destruct (o h c) eqn:E
  end.

(** Running a script function to its end, one answer of GitHub at a time. *)
Ltac crunch :=
  repeat (exec; tidy;
    match goal with
    | |- context [match Js.some ?p ?l with _ => _ end] =>
        let E := fresh "E" in destruct (Js.some p l) as [[]|] eqn:E
    | |- context [match ?o ?h ?c with Ok _ => _ | Throw _ => _ end] =>
        let E := fresh "E" in destruct (o h c) eqn:E
    | |- context [if bool_decide ?P then _ else _] =>
        destruct (bool_decide P) eqn:?
    | |- context [if negb (bool_decide ?P) then _ else _] =>
        destruct (bool_decide P) eqn:?
    end); exec; tidy.

(** What the tests the run went through say. *)
Ltac decided :=
  repeat match goal with
         | H : bool_decide _ = true |- _ => apply bool_decide_eq_true_1 in H
         | H : bool_decide _ = false |- _ => apply bool_decide_eq_false_1 in H
         end.

Lemma issued_eq {A} (m : Run A) s t :
  calls (after m s) = calls s ++ t → issued m s = t.
Proof. intros E. unfold issued. by rewrite E, drop_app_length. Qed.

Lemma is_outdated_true pr :
  is_outdated pr = true ↔
  mergeable_state pr = Some "behind" ∨ mergeable_state pr = Some "blocked".
Proof.
  unfold is_outdated, outdatedStates. destruct (mergeable_state pr) as [st|].
  - rewrite bool_decide_eq_true, !elem_of_cons, elem_of_nil. split.
    + intros [->| [->|[]]]; auto.
    + intros [[=]|[=]]; auto.
  - split; [done|]. intros [|]; done.
Qed.


(** [some] answers [false] when every review has an author and none is an
    approval by [me]. *)
Lemma some_not_approved_by me reviews :
  Forall (λ rv, is_Some (review_user rv) ∧ ¬ approved_by_identity me rv) reviews →
  Js.some (approved_by (login me)) reviews = Ok false.
Proof.
  induction 1 as [|rv l [[u Hu] Hn] _ IH]; simpl; [done|]. unfold approved_by at 1.
  rewrite Hu. destruct (bool_decide (login u = login me)) eqn:E1;
    destruct (bool_decide (review_state rv = "APPROVED")) eqn:E2; simpl; try done.
  destruct Hn. exists u. by rewrite bool_decide_eq_true in E1, E2.
Qed.

Section Functions.

Variable octokit : Octokit.
Variables owner repo : string.

(** *** [isPullRequestGreen] *)

Lemma isPullRequestGreen_run pr s :
  let query := GetCombinedStatusForRef owner repo (sha (head pr)) in
  ∃ s', isPullRequestGreen octokit owner repo pr s =
          (Ok (match octokit (calls s) query with
               | Ok data => bool_decide (state data = "success")
               | Throw _ => false
               end), s')
        ∧ calls s' = calls s ++ [query] ∧ stats s' = stats s
        ∧ orgAccessCache s' = orgAccessCache s.
Proof.
  unfold isPullRequestGreen. exec.
  case_answer; exec; eauto.
Qed.

(** *** [checkSAMLAccess] *)

Lemma checkSAMLAccess_run s :
  ∃ a, checkSAMLAccess octokit owner s = (Ok a, sent (OrgsGet owner) s).
Proof.
  unfold checkSAMLAccess. exec.
  case_answer; exec; eauto. repeat case_bool_decide; exec; eauto.
Qed.

(** What [checkSAMLAccess] answers depends on the requests sent so far
    only. *)
Lemma checkSAMLAccess_outcome s1 s2 :
  calls s1 = calls s2 →
  outcome (checkSAMLAccess octokit owner) s1 = outcome (checkSAMLAccess octokit owner) s2.
Proof.
  intros E. unfold checkSAMLAccess. exec. rewrite E.
  case_answer; exec; [done|]. repeat case_bool_decide; exec; eauto.
Qed.

(** *** [approvePullRequest] *)

Variable n : Z.

(** The requests of [approvePullRequest]: the identity, the reviews, and
    then the review, which it creates when [some] answered [false]. *)
Lemma approvePullRequest_issued s :
  let whoami := GetAuthenticated in
  let list := ListReviews owner repo n in
  let create := CreateReview owner repo n "APPROVE" "" in
  let run := approvePullRequest octokit owner repo n in
  issued run s = [whoami] ∨ issued run s = [whoami; list] ∨
  (issued run s = [whoami; list; create] ∧
   outcome run s = octokit (calls s ++ [whoami; list]) create ∧
   ∃ me reviews,
     octokit (calls s) whoami = Ok me ∧
     octokit (calls s ++ [whoami]) list = Ok reviews ∧
     Js.some (approved_by (login me)) reviews = Ok false).
Proof.
  intros whoami list create run. subst whoami list create run.
  unfold approvePullRequest.
  destruct (octokit (calls s) GetAuthenticated) as [me|e] eqn:Eme.
  { destruct (octokit (calls s ++ [GetAuthenticated]) (ListReviews owner repo n))
      as [reviews|e] eqn:Ers.
    - destruct (Js.some (approved_by (login me)) reviews) as [[]|e] eqn:Esome.
      + right; left. apply issued_eq. exec. rewrite Eme. exec. rewrite Ers. exec.
        rewrite Esome. exec. tidy. done.
      + right; right. split; [|split; [|by eauto]].
        * apply issued_eq. exec. rewrite Eme. exec. rewrite Ers. exec.
          rewrite Esome. exec. tidy. case_answer; exec; tidy; done.
        * exec. rewrite Eme. exec. rewrite Ers. exec. rewrite Esome. exec. tidy.
          case_answer; exec; [|done]. by destruct a.
      + right; left. apply issued_eq. exec. rewrite Eme. exec. rewrite Ers. exec.
        rewrite Esome. exec. tidy. done.
    - right; left. apply issued_eq. exec. rewrite Eme. exec. rewrite Ers. exec.
      tidy. done. }
  left. apply issued_eq. exec. rewrite Eme. exec. done.
Qed.

(** What [approvePullRequest] answers and sends depends on the requests
    sent so far only, and it leaves the counters as they are. *)
Lemma approvePullRequest_same_calls s1 s2 :
  calls s1 = calls s2 →
  outcome (approvePullRequest octokit owner repo n) s1
    = outcome (approvePullRequest octokit owner repo n) s2 ∧
  issued (approvePullRequest octokit owner repo n) s1
    = issued (approvePullRequest octokit owner repo n) s2 ∧
  stats (after (approvePullRequest octokit owner repo n) s1) = stats s1.
Proof.
  intros E. unfold issued. rewrite E. clear -E. revert E.
  destruct s1, s2. simpl. intros ->. unfold approvePullRequest. crunch; done.
Qed.

(** With an identity, a listing, and no approval of the identity in it,
    [approvePullRequest] creates the review, and ends as the creation
    does. *)
Lemma approvePullRequest_creates s me reviews :
  octokit (calls s) GetAuthenticated = Ok me →
  octokit (calls s ++ [GetAuthenticated]) (ListReviews owner repo n) = Ok reviews →
  Js.some (approved_by (login me)) reviews = Ok false →
  issued (approvePullRequest octokit owner repo n) s
    = [GetAuthenticated; ListReviews owner repo n;
       CreateReview owner repo n "APPROVE" ""] ∧
  outcome (approvePullRequest octokit owner repo n) s
    = octokit (calls s ++ [GetAuthenticated; ListReviews owner repo n])
        (CreateReview owner repo n "APPROVE" "").
Proof.
  intros Hme Hrs Hsome. split; [apply issued_eq|].
  all: unfold approvePullRequest; exec; rewrite Hme; exec; rewrite Hrs; exec;
    rewrite Hsome; exec; tidy; case_answer; exec; tidy; try done.
  by destruct a.
Qed.

End Functions.

(** * The loop over the repositories *)

Section Loop.

Variable octokit : Octokit.

(** ** The access gate *)

(** An organization in the cache is not probed again: the gate answers from
    the cache, and counts the repository as blocked when it has no access. *)
Lemma access_gate_cached owner a s :
  orgAccessCache s !! owner = Some a →
  let s' := after (access_gate octokit owner) s in
  outcome (access_gate octokit owner) s = Ok (hasAccess a) ∧
  calls s' = calls s ∧
  orgAccessCache s' = orgAccessCache s ∧
  stats s' = if hasAccess a then stats s else inc_saml_blocked (stats s).
Proof.
  intros Ha. unfold access_gate. exec. rewrite Ha. exec. rewrite Ha.
  destruct (hasAccess a); exec; done.
Qed.

(** An organization that is not in the cache is probed, once, and what
    [checkSAMLAccess] answers goes into the cache. *)
Lemma access_gate_probed owner s :
  orgAccessCache s !! owner = None →
  let s' := after (access_gate octokit owner) s in
  ∃ a, outcome (checkSAMLAccess octokit owner) s = Ok a ∧
    outcome (access_gate octokit owner) s = Ok (hasAccess a) ∧
    calls s' = calls s ++ [OrgsGet owner] ∧
    orgAccessCache s' = <[owner := a]> (orgAccessCache s) ∧
    stats s' = if hasAccess a then stats s else inc_saml_blocked (stats s).
Proof.
  intros Hnone. unfold access_gate.
  pose (s0 := printed ConsoleLog
                ("  Checking SAML SSO access for organization: " +:+ owner) s).
  destruct (checkSAMLAccess_run octokit owner s0) as (a & E).
  exists a. split.
  { rewrite (checkSAMLAccess_outcome octokit owner s s0) by done.
    unfold outcome. by rewrite E. }
  exec. rewrite Hnone. exec. fold s0. rewrite E. exec.
  rewrite lookup_insert_eq. destruct (hasAccess a); exec; done.
Qed.

(** ** One line of the repository list *)

Lemma process_repository_rejected fullName s :
  names fullName = None →
  ∃ line, process_repository octokit fullName s = (Ok tt, printed ConsoleWarn line s).
Proof.
  unfold names, process_repository. intros H.
  destruct (Js.split "/" fullName) as [|owner [|repo parts]]; exec; eauto.
  { destruct (bool_decide (owner = "")); exec; eauto. }
  destruct (decide (owner ≠ "" ∧ repo ≠ "")) as [Hne|Hne];
    [by rewrite bool_decide_eq_true_2 in H|].
  destruct (bool_decide (owner = "")) eqn:E1; exec; eauto.
  destruct (bool_decide (repo = "")) eqn:E2; exec; eauto.
  destruct Hne. decided. done.
Qed.

Lemma process_repository_accepted fullName owner repo s :
  names fullName = Some (owner, repo) →
  process_repository octokit fullName s =
    gated_triage octokit owner repo
      (printed ConsoleLog
         (newline +:+ "Processing repository: " +:+ owner +:+ "/" +:+ repo) s).
Proof.
  unfold names, process_repository. intros H.
  destruct (Js.split "/" fullName) as [|o [|r parts]]; try done.
  destruct (decide (o ≠ "" ∧ r ≠ "")) as [[Ho Hr]|Hne];
    [|by rewrite bool_decide_eq_false_2 in H].
  rewrite bool_decide_eq_true_2 in H by done.
  injection H as -> ->. simpl.
  rewrite !bool_decide_eq_false_2 by done. done.
Qed.

(** The gate, entered in a state with the requests, the cache and the
    counters of [s]. *)
Lemma access_gate_step owner s s0 :
  calls s0 = calls s → orgAccessCache s0 = orgAccessCache s → stats s0 = stats s →
  let s1 := after (access_gate octokit owner) s0 in
  ∃ a probe,
    outcome (access_gate octokit owner) s0 = Ok (hasAccess a) ∧
    calls s1 = calls s ++ probe ∧
    orgAccessCache s1 !! owner = Some a ∧
    match orgAccessCache s !! owner with
    | Some a0 => a = a0 ∧ probe = [] ∧ orgAccessCache s1 = orgAccessCache s
    | None =>
        outcome (checkSAMLAccess octokit owner) s = Ok a ∧
        probe = [OrgsGet owner] ∧
        orgAccessCache s1 = <[owner := a]> (orgAccessCache s)
    end ∧
    stats s1 = if hasAccess a then stats s else inc_saml_blocked (stats s).
Proof.
  intros Ec Eo Es s1. subst s1. rewrite <- Ec, <- Eo, <- Es.
  destruct (orgAccessCache s0 !! owner) as [a0|] eqn:Hc.
  - destruct (access_gate_cached owner a0 s0 Hc) as (H1 & H2 & H3 & H4).
    exists a0, []. rewrite app_nil_r, H3. done.
  - destruct (access_gate_probed owner s0 Hc) as (a & H0 & H1 & H2 & H3 & H4).
    exists a, [OrgsGet owner]. rewrite H3, lookup_insert_eq.
    rewrite (checkSAMLAccess_outcome octokit owner s s0) by done. done.
Qed.

(** The [try] statement never throws: what the [try] block throws, the
    [catch] block counts. *)
Lemma try_triage_outcome owner repo s :
  outcome (try_triage octokit owner repo) s = Ok tt.
Proof.
  unfold try_triage. rewrite outcome_try_catch.
  destruct (outcome (triage_repository octokit owner repo) s) as [[]|e]; [done|].
  unfold triage_failed. repeat case_bool_decide; by exec.
Qed.

(** What one line does: nothing but a warning when it is rejected; else the
    gate, which probes the owner unless it is cached, and then, with access,
    the triage of the repository, and without, one more blocked
    repository. *)
Lemma process_repository_step fullName s :
  let s' := after (process_repository octokit fullName) s in
  outcome (process_repository octokit fullName) s = Ok tt ∧
  match names fullName with
  | None =>
      calls s' = calls s ∧ orgAccessCache s' = orgAccessCache s ∧ stats s' = stats s
  | Some (owner, repo) =>
      ∃ a probe t,
        calls s' = calls s ++ probe ++ t ∧
        orgAccessCache s' !! owner = Some a ∧
        match orgAccessCache s !! owner with
        | Some a0 => a = a0 ∧ probe = [] ∧ orgAccessCache s' = orgAccessCache s
        | None =>
            outcome (checkSAMLAccess octokit owner) s = Ok a ∧
            probe = [OrgsGet owner] ∧
            orgAccessCache s' = <[owner := a]> (orgAccessCache s)
        end ∧
        if hasAccess a
        then Forall (TriageCall owner repo) t ∧ stats_le (stats s) (stats s')
        else t = [] ∧ stats s' = inc_saml_blocked (stats s)
  end.
Proof.
  intros s'. subst s'. destruct (names fullName) as [[owner repo]|] eqn:Hn.
  2: { destruct (process_repository_rejected fullName s Hn) as (line & E).
       unfold outcome, after. rewrite E. done. }
  unfold outcome at 1, after. rewrite (process_repository_accepted _ _ _ _ Hn).
  set (s0 := printed ConsoleLog _ s).
  change ((gated_triage octokit owner repo s0).1)
    with (outcome (gated_triage octokit owner repo) s0).
  change ((gated_triage octokit owner repo s0).2)
    with (after (gated_triage octokit owner repo) s0).
  unfold gated_triage. rewrite outcome_bind, after_bind.
  destruct (access_gate_step owner s s0) as (a & probe & Hout & Hcalls & Hlook & Hcache & Hstats);
    [done..|].
  rewrite Hout. set (s1 := after (access_gate octokit owner) s0) in *.
  destruct (hasAccess a) eqn:Hacc.
  - pose proof (try_triage_same_cache octokit owner repo s1) as Hsame.
    destruct (try_triage_emits octokit owner repo s1) as (t & Ht & HF).
    pose proof (try_triage_counters_grow octokit owner repo s1) as Hgrow.
    unfold same_cache, counters_grow in *.
    split; [apply try_triage_outcome|].
    exists a, probe, t. rewrite Ht, Hcalls, Hsame, app_assoc, Hacc.
    split; [done|]. split; [done|]. split.
    { by destruct (orgAccessCache s !! owner). }
    split; [done|]. by rewrite <- Hstats.
  - split; [done|]. exists a, probe, []. rewrite app_nil_r, Hacc. exec. done.
Qed.

End Loop.

(** * The run *)

Lemma count_probe_triage owner repo org t :
  Forall (TriageCall owner repo) t → count_occ Call_eq_dec t (OrgsGet org) = 0%nat.
Proof.
  induction 1 as [|c t Hc _ IH]; [done|]. simpl.
  destruct (Call_eq_dec c (OrgsGet org)) as [->|_]; [inversion Hc|done].
Qed.

Lemma count_probe_single owner org :
  count_occ Call_eq_dec [OrgsGet owner] (OrgsGet org)
  = if bool_decide (owner = org) then 1%nat else 0%nat.
Proof.
  cbn [count_occ].
  destruct (Call_eq_dec (OrgsGet owner) (OrgsGet org)) as [[= ->]|Hne].
  - by rewrite bool_decide_eq_true_2.
  - rewrite bool_decide_eq_false_2; [done|]. by intros ->.
Qed.

Lemma owners_cons fullName l :
  owners (fullName :: l)
  = match names fullName with
    | Some (owner, _) => owner :: owners l
    | None => owners l
    end.
Proof. unfold owners. simpl. by destruct (names fullName) as [[]|]. Qed.

Lemma owners_app l1 l2 : owners (l1 ++ l2) = owners l1 ++ owners l2.
Proof. unfold owners. by rewrite omap_app, fmap_app. Qed.

Section Run.

Variable octokit : Octokit.

(** No line makes the loop over the repositories throw, so every line is
    processed, in the state the lines before it left. *)
Lemma for_of_process_outcome l s :
  outcome (for_of l (process_repository octokit)) s = Ok tt.
Proof.
  revert s. induction l as [|x l IH]; intros s; [done|].
  simpl. rewrite outcome_bind.
  destruct (process_repository_step octokit x s) as [-> _]. apply IH.
Qed.

Lemma for_of_process_cons x l s :
  after (for_of (x :: l) (process_repository octokit)) s
  = after (for_of l (process_repository octokit))
      (after (process_repository octokit x) s).
Proof.
  simpl. rewrite after_bind.
  by destruct (process_repository_step octokit x s) as [-> _].
Qed.

Lemma for_of_process_app l1 l2 s :
  after (for_of (l1 ++ l2) (process_repository octokit)) s
  = after (for_of l2 (process_repository octokit))
      (after (for_of l1 (process_repository octokit)) s).
Proof.
  revert s. induction l1 as [|x l1 IH]; intros s; [done|].
  rewrite <- app_comm_cons, !for_of_process_cons. apply IH.
Qed.

(** The summary only prints. *)
Lemma print_summary_run st s :
  ∃ s', print_summary st s = (Ok tt, s') ∧
    calls s' = calls s ∧ stats s' = stats s ∧
    orgAccessCache s' = orgAccessCache s ∧
    console s' = console s ++ summary st.
Proof.
  unfold summary, print_summary. exec.
  destruct (bool_decide (0 < saml_blocked st)%N); exec;
    eexists; (split; [reflexivity|]); simpl; rewrite <- ?app_assoc; done.
Qed.

(** [main] resets the counters and the cache, runs the loop, and prints the
    counters the loop left. *)
Lemma main_run repos s :
  let final := after (for_of repos (process_repository octokit)) (started s) in
  outcome (main octokit repos) s = Ok tt ∧
  calls (after (main octokit repos) s) = calls final ∧
  stats (after (main octokit repos) s) = stats final ∧
  console (after (main octokit repos) s) = console final ++ summary (stats final).
Proof.
  intros final.
  assert (main octokit repos s
          = print_summary (stats final) final) as E.
  { unfold main. unfold bind at 1 2 3. simpl.
    fold no_stats. fold (started s).
    rewrite (run_eta (for_of repos (process_repository octokit))).
    rewrite for_of_process_outcome. fold final. done. }
  unfold outcome, after. rewrite E.
  destruct (print_summary_run (stats final) final) as (s' & -> & ? & ? & ? & ?).
  done.
Qed.

(** ** The cache and the probes *)

Lemma process_repository_probes fullName s base t :
  calls s = base ++ t → probed_as_cached t s →
  let s' := after (process_repository octokit fullName) s in
  ∃ t', calls s' = base ++ t' ∧ probed_as_cached t' s' ∧
    (∀ org, is_Some (orgAccessCache s' !! org)
            ↔ is_Some (orgAccessCache s !! org) ∨ org ∈ owners [fullName]).
Proof.
  intros Hcalls Hinv s'. subst s'. unfold probed_as_cached in *.
  destruct (process_repository_step octokit fullName s) as [_ Hstep].
  rewrite owners_cons. destruct (names fullName) as [[owner repo]|].
  2: { destruct Hstep as (Hc & Ho & _). exists t. rewrite Hc, Hcalls.
       split; [done|]. split; [by intros org; rewrite Ho|].
       intros org. rewrite Ho. unfold owners. simpl. rewrite elem_of_nil. tauto. }
  destruct Hstep as (a & probe & t0 & Hc & Hlook & Hcache & Ht0).
  assert (∀ org, count_occ Call_eq_dec t0 (OrgsGet org) = 0%nat) as Hzero.
  { intros org. destruct (hasAccess a).
    - destruct Ht0 as [HF _]. by eapply count_probe_triage.
    - by destruct Ht0 as [-> _]. }
  exists (t ++ probe ++ t0). rewrite Hc, Hcalls, <- app_assoc.
  split; [done|].
  assert (owners [] = []) as -> by done.
  destruct (orgAccessCache s !! owner) as [a0|] eqn:Hold.
  - destruct Hcache as (-> & -> & Hsame). rewrite Hsame. simpl.
    split.
    + intros org. rewrite count_occ_app, Hzero, Nat.add_0_r. apply Hinv.
    + intros org. rewrite list_elem_of_singleton. split; [by left|].
      intros [?| ->]; [done|]. by rewrite Hold.
  - destruct Hcache as (_ & -> & Hins). rewrite Hins.
    split.
    + intros org. rewrite !count_occ_app, Hzero, Nat.add_0_r, count_probe_single.
      rewrite Hinv. case_bool_decide as Heq.
      * subst org. by rewrite lookup_insert_eq, Hold.
      * rewrite lookup_insert_ne by done. by rewrite Nat.add_0_r.
    + intros org. rewrite list_elem_of_singleton.
      destruct (decide (owner = org)) as [->|Hne].
      * rewrite lookup_insert_eq. split; [by right|by eauto].
      * rewrite lookup_insert_ne by done. split; [by left|].
        intros [?|?]; [done|congruence].
Qed.

Lemma for_of_process_probes l s base t :
  calls s = base ++ t → probed_as_cached t s →
  let s' := after (for_of l (process_repository octokit)) s in
  ∃ t', calls s' = base ++ t' ∧ probed_as_cached t' s' ∧
    (∀ org, is_Some (orgAccessCache s' !! org)
            ↔ is_Some (orgAccessCache s !! org) ∨ org ∈ owners l).
Proof.
  revert s t. induction l as [|x l IH]; intros s t Hcalls Hinv s'; subst s'.
  { exists t. split; [done|]. split; [done|].
    intros org. unfold owners. simpl. rewrite elem_of_nil. tauto. }
  rewrite for_of_process_cons.
  destruct (process_repository_probes x s base t Hcalls Hinv)
    as (t1 & Hc1 & Hinv1 & Hdom1).
  destruct (IH _ t1 Hc1 Hinv1) as (t2 & Hc2 & Hinv2 & Hdom2).
  exists t2. split; [done|]. split; [done|].
  intros org. rewrite Hdom2, Hdom1.
  change (x :: l) with ([x] ++ l). rewrite owners_app, elem_of_app. tauto.
Qed.

End Run.

Section Gate.

Variable octokit : Octokit.

(** An organization in the cache stays there as it is, and is not probed. *)
Lemma process_repository_keeps_cached fullName s org a :
  orgAccessCache s !! org = Some a →
  let s' := after (process_repository octokit fullName) s in
  orgAccessCache s' !! org = Some a ∧ emits (λ c, c ≠ OrgsGet org) s s'.
Proof.
  intros Ha s'. subst s'.
  destruct (process_repository_step octokit fullName s) as [_ Hstep].
  destruct (names fullName) as [[owner repo]|].
  2: { destruct Hstep as (Hc & Ho & _). rewrite Ho. split; [done|].
       by apply emits_same_calls. }
  destruct Hstep as (a' & probe & t0 & Hc & Hlook & Hcache & Ht0).
  assert (Forall (λ c, c ≠ OrgsGet org) t0) as Ht.
  { destruct (hasAccess a').
    - destruct Ht0 as [HF _]. eapply Forall_impl; [exact HF|].
      intros c Hc' ->. inversion Hc'.
    - destruct Ht0 as [-> _]. constructor. }
  destruct (orgAccessCache s !! owner) as [a0|] eqn:Hold.
  - destruct Hcache as (_ & -> & ->). split; [done|]. by exists t0.
  - destruct Hcache as (_ & -> & ->). assert (owner ≠ org) as Hne by congruence.
    rewrite lookup_insert_ne by done. split; [done|].
    exists ([OrgsGet owner] ++ t0). split; [done|].
    apply Forall_app. split; [|done]. constructor; [|constructor]. congruence.
Qed.

Lemma for_of_process_keeps_cached l s org a :
  orgAccessCache s !! org = Some a →
  let s' := after (for_of l (process_repository octokit)) s in
  orgAccessCache s' !! org = Some a ∧ emits (λ c, c ≠ OrgsGet org) s s'.
Proof.
  revert s. induction l as [|x l IH]; intros s Ha s'; subst s'.
  { split; [done|]. reflexivity. }
  rewrite for_of_process_cons.
  destruct (process_repository_keeps_cached x s org a Ha) as [Ha1 He1].
  destruct (IH _ Ha1) as [Ha2 He2]. split; [done|]. by etrans.
Qed.

(** A line that names a repository of an organization in the cache does
    what the entry says: with access it goes to the [try] statement at once,
    without access it prints the reason of the entry and counts the
    repository as blocked.  Nothing is asked of GitHub for the decision. *)
Lemma process_repository_cached fullName org repo a s :
  orgAccessCache s !! org = Some a →
  names fullName = Some (org, repo) →
  let s1 := printed ConsoleLog
              (newline +:+ "Processing repository: " +:+ org +:+ "/" +:+ repo) s in
  process_repository octokit fullName s =
    if hasAccess a then try_triage octokit org repo s1
    else (Ok tt, with_stats inc_saml_blocked
                   (printed ConsoleError (access_denied_line a) s1)).
Proof.
  intros Ha Hname s1. rewrite (process_repository_accepted _ _ _ _ _ Hname).
  fold s1. unfold gated_triage, access_gate, access_denied_line.
  unfold bind at 1 2 3 4. unfold gets. simpl. rewrite Ha. simpl.
  unfold ret, bind. simpl. rewrite Ha.
  destruct (hasAccess a); simpl; [done|]. by exec.
Qed.

(** The entries of the cache are the answers of the probes. *)
Lemma process_repository_cached_as_probed fullName s :
  cached_as_probed octokit s →
  cached_as_probed octokit (after (process_repository octokit fullName) s).
Proof.
  intros Hinv org a Ha.
  destruct (process_repository_step octokit fullName s) as [_ Hstep].
  destruct (names fullName) as [[owner repo]|].
  2: { destruct Hstep as (Hc & Ho & _). rewrite Ho in Ha. rewrite Hc.
       by apply Hinv. }
  destruct Hstep as (a' & probe & t0 & Hc & Hlook & Hcache & _).
  destruct (orgAccessCache s !! owner) as [a0|] eqn:Hold.
  - destruct Hcache as (_ & -> & Ho). rewrite Ho in Ha.
    destruct (Hinv org a Ha) as (s0 & later & E & Hout).
    exists s0, (later ++ t0). rewrite Hc, E. simpl.
    by rewrite <- app_assoc.
  - destruct Hcache as (Hout & -> & Ho). rewrite Ho in Ha.
    destruct (decide (owner = org)) as [->|Hne].
    + rewrite lookup_insert_eq in Ha. injection Ha as <-. by exists s, t0.
    + rewrite lookup_insert_ne in Ha by done.
      destruct (Hinv org a Ha) as (s0 & later & E & Hout0).
      exists s0, (later ++ [OrgsGet owner] ++ t0). rewrite Hc, E. simpl.
      by rewrite <- app_assoc.
Qed.

Lemma for_of_process_cached_as_probed l s :
  cached_as_probed octokit s →
  cached_as_probed octokit (after (for_of l (process_repository octokit)) s).
Proof.
  revert s. induction l as [|x l IH]; intros s Hinv; [done|].
  rewrite for_of_process_cons. by apply IH, process_repository_cached_as_probed.
Qed.

(** No counter decreases while the repositories are processed. *)
Lemma process_repository_counters_grow fullName s :
  stats_le (stats s) (stats (after (process_repository octokit fullName) s)).
Proof.
  destruct (process_repository_step octokit fullName s) as [_ Hstep].
  destruct (names fullName) as [[owner repo]|].
  2: { destruct Hstep as (_ & _ & ->). reflexivity. }
  destruct Hstep as (a & probe & t0 & _ & _ & _ & Ht0).
  destruct (hasAccess a).
  - by destruct Ht0.
  - destruct Ht0 as [_ ->]. apply Increment_le. constructor.
Qed.

Lemma for_of_process_counters_grow l s :
  stats_le (stats s) (stats (after (for_of l (process_repository octokit)) s)).
Proof.
  revert s. induction l as [|x l IH]; intros s; [reflexivity|].
  rewrite for_of_process_cons. etrans; [apply process_repository_counters_grow|apply IH].
Qed.

(** ** An organization the token is not authorized for *)

Variable org : string.
Hypothesis forbidden :
  ∀ h, ∃ e, octokit h (OrgsGet org) = Throw e ∧ Js.status e = Some 403.

Lemma checkSAMLAccess_forbidden s a :
  outcome (checkSAMLAccess octokit org) s = Ok a → hasAccess a = false.
Proof.
  unfold checkSAMLAccess. exec. destruct (forbidden (calls s)) as (e & -> & He).
  exec. rewrite bool_decide_eq_true_2 by done. exec. by intros [= <-].
Qed.

Lemma process_repository_forbidden fullName s :
  denied org s →
  let s' := after (process_repository octokit fullName) s in
  denied org s' ∧ emits (only_probes org) s s' ∧
  (∀ repo, names fullName = Some (org, repo) →
     stats s' = inc_saml_blocked (stats s) ∧
     issued (process_repository octokit fullName) s =
       match orgAccessCache s !! org with Some _ => [] | None => [OrgsGet org] end).
Proof.
  intros Hden s'. subst s'. unfold denied in *.
  destruct (process_repository_step octokit fullName s) as [_ Hstep].
  destruct (names fullName) as [[owner repo]|].
  2: { destruct Hstep as (Hc & Ho & _). rewrite Ho. split; [done|].
       split; [by apply emits_same_calls|done]. }
  destruct Hstep as (a & probe & t0 & Hc & Hlook & Hcache & Ht0).
  destruct (decide (owner = org)) as [->|Hne].
  - assert (hasAccess a = false) as Hacc.
    { destruct (orgAccessCache s !! org) as [a0|] eqn:Hold.
      - destruct Hcache as (-> & _). by apply Hden.
      - destruct Hcache as (Hout & _). by eapply checkSAMLAccess_forbidden. }
    rewrite Hacc in Ht0. destruct Ht0 as [-> Hstats]. rewrite app_nil_r in Hc.
    assert (probe = match orgAccessCache s !! org with
                    | Some _ => [] | None => [OrgsGet org] end) as Hprobe.
    { destruct (orgAccessCache s !! org); by destruct Hcache as (_ & -> & _). }
    split; [|split].
    + intros a'. rewrite Hlook. by intros [= <-].
    + exists probe. split; [done|]. rewrite Hprobe.
      destruct (orgAccessCache s !! org); repeat constructor.
    + intros repo' _. split; [done|]. apply issued_eq. by rewrite Hc, Hprobe.
  - split; [|split].
    + intros a'. destruct (orgAccessCache s !! owner).
      * destruct Hcache as (_ & _ & ->). apply Hden.
      * destruct Hcache as (_ & _ & ->). rewrite lookup_insert_ne by done. apply Hden.
    + exists (probe ++ t0). split; [done|]. apply Forall_app. split.
      * destruct (orgAccessCache s !! owner).
        -- destruct Hcache as (_ & -> & _). constructor.
        -- destruct Hcache as (_ & -> & _). constructor; [|constructor].
           intros [= ?]. done.
      * destruct (hasAccess a).
        -- destruct Ht0 as [HF _]. eapply Forall_impl; [exact HF|].
           intros c []; intros [= ?]; done.
        -- destruct Ht0 as [-> _]. constructor.
    + intros repo' [= ? ?]. done.
Qed.

Lemma for_of_process_forbidden l s :
  denied org s →
  let s' := after (for_of l (process_repository octokit)) s in
  denied org s' ∧ emits (only_probes org) s s'.
Proof.
  revert s. induction l as [|x l IH]; intros s Hden s'; subst s'.
  { split; [done|]. reflexivity. }
  rewrite for_of_process_cons.
  destruct (process_repository_forbidden x s Hden) as (Hden1 & He1 & _).
  destruct (IH _ Hden1) as [Hden2 He2]. split; [done|]. by etrans.
Qed.

End Gate.

(** * The claims about one function *)

(** [H] puts a request in a list that has no such request. *)
Ltac absurd_member H :=
  repeat (apply elem_of_cons in H as [H|H]; [discriminate H|]);
  by apply elem_of_nil in H.

(** C3: the CI readiness check answers ready exactly when the combined
    status of the head commit is "success"; every other state answers not
    ready, and so does a status query that throws.  The check itself never
    throws, and sends that one query. *)
Theorem isPullRequestGreen_iff_success octokit owner repo pr s :
  let query := GetCombinedStatusForRef owner repo (sha (head pr)) in
  ∃ ready,
    outcome (isPullRequestGreen octokit owner repo pr) s = Ok ready ∧
    issued (isPullRequestGreen octokit owner repo pr) s = [query] ∧
    (ready = true ↔
       ∃ data, octokit (calls s) query = Ok data ∧ state data = "success") ∧
    (∀ e, octokit (calls s) query = Throw e → ready = false).
Proof.
  intros query.
  destruct (isPullRequestGreen_run octokit owner repo pr s) as (s' & E & Hc & _).
  fold query in E, Hc. eexists. split; [by unfold outcome; rewrite E|].
  split; [apply issued_eq; by unfold after; rewrite E|].
  destruct (octokit (calls s) query) as [data|e]; split.
  - rewrite bool_decide_eq_true. split; [by eauto|]. by intros (? & [= <-] & ?).
  - done.
  - split; [done|]. by intros (? & [=] & _).
  - done.
Qed.

(** C5: [checkSAMLAccess] sends the probe and maps its answer: a 403 to no
    access with the SAML reason, a 401 to no access with the invalid-token
    reason, and everything else, the success of the probe and any other
    error, to access. *)
Theorem checkSAMLAccess_mapping octokit owner s :
  let probe := octokit (calls s) (OrgsGet owner) in
  ∃ access,
    outcome (checkSAMLAccess octokit owner) s = Ok access ∧
    issued (checkSAMLAccess octokit owner) s = [OrgsGet owner] ∧
    (∀ e, probe = Throw e → Js.status e = Some 403 →
       hasAccess access = false ∧
       error access =
         Some ("SAML SSO: Token not authorized for organization '" +:+ owner
               +:+ "'. Please authorize your token at: https://github.com/settings/tokens")) ∧
    (∀ e, probe = Throw e → Js.status e = Some 401 →
       hasAccess access = false ∧
       error access =
         Some "Authentication failed: Invalid or expired token. Please check your token in token.txt") ∧
    ((∃ u, probe = Ok u) ∨
     (∃ e, probe = Throw e ∧ Js.status e ≠ Some 403 ∧ Js.status e ≠ Some 401) →
       access = {| hasAccess := true; error := None |}).
Proof.
  intros probe. subst probe.
  destruct (checkSAMLAccess_run octokit owner s) as (a & E).
  exists a. split; [by unfold outcome; rewrite E|].
  split; [apply issued_eq; by unfold after; rewrite E|].
  assert (outcome (checkSAMLAccess octokit owner) s = Ok a) as Ha
    by (by unfold outcome; rewrite E).
  clear E. revert Ha. unfold checkSAMLAccess. exec.
  destruct (octokit (calls s) (OrgsGet owner)) as [u|e]; exec.
  - intros [= <-]. split; [done|]. split; [done|]. done.
  - repeat case_bool_decide; exec; intros [= <-].
    + split; [done|]. split; [intros e' [= <-]; congruence|].
      intros [[? [=]]|(e' & [= <-] & ? & ?)]; done.
    + split; [intros e' [= <-]; congruence|]. split; [done|].
      intros [[? [=]]|(e' & [= <-] & ? & ?)]; done.
    + split; [intros e' [= <-]; congruence|].
      split; [intros e' [= <-]; congruence|]. done.
Qed.




(** * The claims about the pass over one pull request *)

(** C1, as the script has it: a pull request fetched as behind or blocked
    gets one update-branch request, with the head of the fetched pull
    request as expected head.  When GitHub queues the update the pass ends
    there, counted as updated, with no status query and no review request.
    When GitHub rejects it the pass goes on to the status query; a status
    other than "success", or a query that fails, ends the pass there,
    counted as skipped; the status "success" is followed by the requests of
    [approvePullRequest], the identity first, and, when no review of the
    listing is an approval by the owner of the token, by the review, which
    counts the pull request as approved when GitHub accepts it. *)
Theorem stale_pull_request_one_update (octokit : Octokit) owner repo pr s details :
  octokit (calls s) (fetch_call owner repo pr) = Ok details →
  mergeable_state details = Some "behind" ∨ mergeable_state details = Some "blocked" →
  let run := triage_pull_request octokit owner repo pr in
  let fetch := fetch_call owner repo pr in
  let update := update_call owner repo details in
  let status := status_call owner repo pr in
  ∃ rest,
    issued run s = fetch :: update :: rest ∧
    Forall (λ c, is_update c = false) rest ∧
    match octokit (calls s ++ [fetch]) update with
    | Ok _ =>
        rest = [] ∧ outcome run s = Ok tt ∧ stats (after run s) = inc_updated (stats s)
    | Throw _ =>
        ∃ rest', rest = status :: rest' ∧
          if match octokit (calls s ++ [fetch; update]) status with
             | Ok data => bool_decide (state data = "success")
             | Throw _ => false
             end
          then
            rest' = issued (approvePullRequest octokit owner repo (number pr))
                      (sent status (sent update (sent fetch s))) ∧
            (∃ rest'', rest' = GetAuthenticated :: rest'') ∧
            ∀ me reviews,
              octokit (calls s ++ [fetch; update; status]) GetAuthenticated = Ok me →
              octokit (calls s ++ [fetch; update; status; GetAuthenticated])
                (reviews_call owner repo pr) = Ok reviews →
              Forall (λ rv, is_Some (review_user rv) ∧ ¬ approved_by_identity me rv)
                reviews →
              rest' = [GetAuthenticated; reviews_call owner repo pr;
                       approve_call owner repo pr] ∧
              (octokit (calls s ++ [fetch; update; status; GetAuthenticated;
                                    reviews_call owner repo pr])
                 (approve_call owner repo pr) = Ok tt →
               outcome run s = Ok tt ∧ stats (after run s) = inc_approved (stats s))
          else
            rest' = [] ∧ outcome run s = Ok tt ∧
            stats (after run s) = inc_skipped (stats s)
    end.
Proof.
  intros Hd Hst run fetch update status. apply is_outdated_true in Hst.
  subst run fetch update status.
  unfold fetch_call, update_call, status_call, reviews_call, approve_call in *.
  destruct (octokit (calls s ++ [PullsGet owner repo (number pr)])
              (UpdateBranch owner repo (number details) (sha (head details))))
    as [u|e] eqn:Hup.
  - exists []. unfold issued, outcome, after.
    unfold triage_pull_request, syncBranchIfBehind.
    exec. rewrite Hd. exec. rewrite Hst. exec. rewrite Hup. exec. tidy. done.
  - assert (∃ s2,
              calls s2 = calls s ++ [PullsGet owner repo (number pr);
                UpdateBranch owner repo (number details) (sha (head details));
                GetCombinedStatusForRef owner repo (sha (head pr))] ∧
              stats s2 = stats s ∧
              triage_pull_request octokit owner repo pr s =
                if match octokit (calls s ++ [PullsGet owner repo (number pr);
                           UpdateBranch owner repo (number details) (sha (head details))])
                         (GetCombinedStatusForRef owner repo (sha (head pr))) with
                   | Ok data => bool_decide (state data = "success")
                   | Throw _ => false
                   end
                then
                  (approvePullRequest octokit owner repo (number pr) ;;;
                   modify (with_stats inc_approved))
                    (printed ConsoleLog
                       ("    PR #" +:+ pretty (number pr) +:+ " is green! Approving...") s2)
                else
                  (Ok tt,
                   with_stats inc_skipped
                     (printed ConsoleLog
                        ("    PR #" +:+ pretty (number pr)
                         +:+ " is NOT green. Skipping approval.") s2)))
      as (s2 & Hc2 & Hs2 & E).
    { unfold triage_pull_request, syncBranchIfBehind.
      exec. rewrite Hd. exec. rewrite Hst. exec. rewrite Hup. exec.
      destruct (bool_decide (Js.status e = Some 422)); exec;
        match goal with
        | |- context [isPullRequestGreen octokit owner repo pr ?x] =>
            destruct (isPullRequestGreen_run octokit owner repo pr x)
              as (s2 & Eg & Hc2 & Hs2 & _)
        end;
        exists s2; rewrite Eg; exec; tidy; (split; [done|]); (split; [done|]);
        match goal with |- context [negb ?g] => by destruct g end. }
    unfold issued at 1. unfold outcome, after. rewrite E. clear E.
    match goal with |- context [if ?g then _ else _] => destruct g end.
    + set (s3 := printed ConsoleLog _ s2).
      assert (calls s3 = calls (sent (GetCombinedStatusForRef owner repo (sha (head pr)))
                (sent (UpdateBranch owner repo (number details) (sha (head details)))
                   (sent (PullsGet owner repo (number pr)) s)))) as Hc3.
      { simpl. rewrite Hc2. by tidy. }
      destruct (approvePullRequest_same_calls octokit owner repo (number pr) _ _ Hc3)
        as (Hout & <- & Hstats).
      destruct (emits_issued _ (approvePullRequest octokit owner repo (number pr)) s3
                  (approvePullRequest_emits _ _ _ _ _)) as [Hafter _].
      change (calls s3) with (calls s2) in Hafter. rewrite Hc2 in Hafter.
      pose proof (approvePullRequest_issued octokit owner repo (number pr) s3)
        as Hcases. cbv zeta in Hcases.
      eexists (_ :: issued (approvePullRequest octokit owner repo (number pr)) s3).
      split.
      { unfold bind. unfold outcome, after in *.
        destruct (approvePullRequest octokit owner repo (number pr) s3) as [[[]|err] s4];
          simpl in *; rewrite Hafter; by tidy. }
      split.
      { constructor; [done|].
        destruct Hcases as [->|[->|[-> _]]]; by repeat constructor. }
      eexists. split; [reflexivity|]. split; [reflexivity|]. split.
      { destruct Hcases as [->|[->|[-> _]]]; by eexists. }
      intros me reviews Hme Hrs Hnone. apply some_not_approved_by in Hnone.
      rewrite <- Hc2 in Hme.
      replace (calls s ++ _) with (calls s2 ++ [GetAuthenticated]) in Hrs
        by (by rewrite Hc2, <- app_assoc).
      destruct (approvePullRequest_creates octokit owner repo (number pr) s3
                  me reviews Hme Hrs Hnone) as [Hissued Hcreate].
      split; [done|]. intros Hok.
      replace (calls s ++ _)
        with (calls s3 ++ [GetAuthenticated; ListReviews owner repo (number pr)])
        in Hok by (simpl; by rewrite Hc2, <- app_assoc).
      rewrite Hok in Hcreate. clear Hout. unfold bind. unfold outcome, after in *.
      destruct (approvePullRequest octokit owner repo (number pr) s3) as [r s4].
      simpl in *. subst r. simpl. split; [done|]. congruence.
    + simpl. rewrite Hc2. tidy. eexists. split; [reflexivity|].
      split; [by repeat constructor|]. eexists. split; [reflexivity|].
      split; [done|]. split; [done|]. by rewrite Hs2.
Qed.

(** Pull request 7 is behind.  When GitHub queues the update the pass ends
    with it; when GitHub rejects it and the status is "success", the pass
    goes on to the review. *)
Lemma stale_pull_request_one_update_witness :
  let queued := triage_pull_request github_update_queued "acme" "app" bump in
  let rejected := triage_pull_request github_update_rejected "acme" "app" bump in
  (issued queued fresh = [PullsGet "acme" "app" 7; UpdateBranch "acme" "app" 7 "def"] ∧
   outcome queued fresh = Ok tt ∧
   stats (after queued fresh) = inc_updated no_stats) ∧
  (issued rejected fresh =
     [PullsGet "acme" "app" 7; UpdateBranch "acme" "app" 7 "def";
      GetCombinedStatusForRef "acme" "app" "abc"; GetAuthenticated;
      ListReviews "acme" "app" 7; CreateReview "acme" "app" 7 "APPROVE" ""] ∧
   outcome rejected fresh = Ok tt ∧
   stats (after rejected fresh) = inc_approved no_stats).
Proof.
  intros queued rejected. split.
  - destruct (stale_pull_request_one_update github_update_queued "acme" "app" bump
                fresh (bump_details "behind")) as (rest & E & _ & -> & Hok & Hstats).
    + reflexivity.
    + left. reflexivity.
    + split; [exact E|]. split; [exact Hok|exact Hstats].
  - destruct (stale_pull_request_one_update github_update_rejected "acme" "app" bump
                fresh (bump_details "behind"))
      as (rest & E & _ & rest' & -> & _ & _ & H).
    + reflexivity.
    + left. reflexivity.
    + destruct (H octocat []) as [-> Hdone].
      * reflexivity.
      * reflexivity.
      * constructor.
      * split; [exact E|]. apply Hdone. reflexivity.
Defined.

(** C1 as stated fails: pull request 7 is behind, GitHub rejects the update
    of its branch, and the same pass queries the status, lists the reviews
    and creates a review. *)
Lemma stale_pull_request_rejected_update_goes_on :
  let run := triage_pull_request github_update_rejected "acme" "app" bump in
  github_update_rejected (calls fresh) (PullsGet "acme" "app" 7)
    = Ok (bump_details "behind") ∧
  mergeable_state (bump_details "behind") = Some "behind" ∧
  issued run fresh =
    [PullsGet "acme" "app" 7; UpdateBranch "acme" "app" 7 "def";
     GetCombinedStatusForRef "acme" "app" "abc"; GetAuthenticated;
     ListReviews "acme" "app" 7; CreateReview "acme" "app" 7 "APPROVE" ""] ∧
  filter (λ c, is_status_query c = true) (issued run fresh) ≠ [] ∧
  filter (λ c, is_review_call c = true) (issued run fresh) ≠ [].
Proof. by vm_compute. Qed.

(** C9, as the script has it: for a pull request fetched with a state other
    than behind and blocked, whose combined status is "success" and whose
    reviews all have an author and hold no approval by the owner of the
    token, the pass sends one review-creation request, with event APPROVE
    and an empty body, after the fetch, the status query, the identity and
    the reviews; when GitHub accepts the review the pull request is counted
    as approved. *)
Theorem green_pull_request_one_review (octokit : Octokit) owner repo pr s
    details status me reviews :
  octokit (calls s) (fetch_call owner repo pr) = Ok details →
  mergeable_state details ≠ Some "behind" →
  mergeable_state details ≠ Some "blocked" →
  octokit (calls s ++ [fetch_call owner repo pr]) (status_call owner repo pr)
    = Ok status →
  state status = "success" →
  octokit (calls s ++ [fetch_call owner repo pr; status_call owner repo pr])
    GetAuthenticated = Ok me →
  octokit (calls s ++ [fetch_call owner repo pr; status_call owner repo pr;
                       GetAuthenticated])
    (reviews_call owner repo pr) = Ok reviews →
  Forall (λ rv, is_Some (review_user rv) ∧ ¬ approved_by_identity me rv) reviews →
  let run := triage_pull_request octokit owner repo pr in
  issued run s =
    [fetch_call owner repo pr; status_call owner repo pr; GetAuthenticated;
     reviews_call owner repo pr; approve_call owner repo pr] ∧
  (octokit (calls s ++ [fetch_call owner repo pr; status_call owner repo pr;
                        GetAuthenticated; reviews_call owner repo pr])
     (approve_call owner repo pr) = Ok tt →
   outcome run s = Ok tt ∧ stats (after run s) = inc_approved (stats s)).
Proof.
  intros Hd Hbehind Hblocked Hst Hgreen Hme Hrs Hnone run.
  assert (is_outdated details = false) as Hfresh.
  { apply not_true_is_false. rewrite is_outdated_true. tauto. }
  apply some_not_approved_by in Hnone.
  cut (calls (after run s) = calls s ++
         [fetch_call owner repo pr; status_call owner repo pr; GetAuthenticated;
          reviews_call owner repo pr; approve_call owner repo pr] ∧
       (octokit (calls s ++ [fetch_call owner repo pr; status_call owner repo pr;
                             GetAuthenticated; reviews_call owner repo pr])
          (approve_call owner repo pr) = Ok tt →
        outcome run s = Ok tt ∧ stats (after run s) = inc_approved (stats s))).
  { intros [E H]. split; [by apply issued_eq|done]. }
  subst run. unfold fetch_call, status_call, reviews_call, approve_call in *.
  unfold triage_pull_request, syncBranchIfBehind, isPullRequestGreen, approvePullRequest.
  exec. rewrite Hd. exec. rewrite Hfresh. exec. tidy. rewrite Hst. exec.
  rewrite Hgreen. exec. tidy. rewrite Hme. exec. tidy. rewrite Hrs. exec.
  rewrite Hnone. exec. tidy.
  case_answer; exec; tidy; (split; [done|]); [done|]. intros [=].
Qed.

(** Pull request 7 is clean, green and not reviewed, and GitHub accepts the
    review. *)
Lemma green_pull_request_one_review_witness :
  let run := triage_pull_request github_green "acme" "app" bump in
  issued run fresh =
    [PullsGet "acme" "app" 7; GetCombinedStatusForRef "acme" "app" "abc";
     GetAuthenticated; ListReviews "acme" "app" 7;
     CreateReview "acme" "app" 7 "APPROVE" ""] ∧
  outcome run fresh = Ok tt ∧
  stats (after run fresh) = inc_approved no_stats.
Proof.
  intros run.
  destruct (green_pull_request_one_review github_green "acme" "app" bump fresh
              (bump_details "clean") {| state := "success" |} octocat [])
    as [E H].
  - reflexivity.
  - discriminate.
  - discriminate.
  - reflexivity.
  - reflexivity.
  - reflexivity.
  - reflexivity.
  - constructor.
  - split; [exact E|]. apply H. reflexivity.
Defined.

(** C9 as stated fails: pull request 7 is clean, its status is "success",
    nobody approved it, and GitHub refuses the review the script sends; the
    run counts no approval, and counts the repository as skipped. *)
Lemma green_pull_request_refused_review_not_approved :
  let run := main github_review_refused ["acme/app"] in
  is_dependabot bump = true ∧
  github_review_refused
    [OrgsGet "acme"; PullsList "acme" "app" "open"] (PullsGet "acme" "app" 7)
    = Ok (bump_details "clean") ∧
  github_review_refused
    [OrgsGet "acme"; PullsList "acme" "app" "open"; PullsGet "acme" "app" 7]
    (GetCombinedStatusForRef "acme" "app" "abc") = Ok {| state := "success" |} ∧
  github_review_refused
    [OrgsGet "acme"; PullsList "acme" "app" "open"; PullsGet "acme" "app" 7;
     GetCombinedStatusForRef "acme" "app" "abc"; GetAuthenticated]
    (ListReviews "acme" "app" 7) = Ok [] ∧
  issued run fresh =
    [OrgsGet "acme"; PullsList "acme" "app" "open"; PullsGet "acme" "app" 7;
     GetCombinedStatusForRef "acme" "app" "abc"; GetAuthenticated;
     ListReviews "acme" "app" 7; CreateReview "acme" "app" 7 "APPROVE" ""] ∧
  stats (after run fresh) =
    {| approved := 0; skipped := 1; updated := 0; saml_blocked := 0 |}.
Proof. by vm_compute. Qed.




(** * The claims about the run *)

(** C8: in a run, an organization is probed once when an accepted line of
    the repository list names it, and not at all otherwise.  Once an
    organization is in the cache, the lines that follow leave its entry as
    it is and send no probe of it, and the entry decides for each of them:
    a line that names a repository of the organization goes to the [try]
    statement at once when the entry has access, and otherwise prints the
    reason of the entry and counts the repository as blocked, without any
    request.  At every later line of the list, the entry is what
    [checkSAMLAccess] answered when the organization was probed. *)
Theorem organization_probed_once (octokit : Octokit) repos s org :
  count_occ Call_eq_dec (issued (main octokit repos) s) (OrgsGet org)
    = (if bool_decide (org ∈ owners repos) then 1 else 0)%nat ∧
  (∀ s1 a lines,
     orgAccessCache s1 !! org = Some a →
     orgAccessCache (after (for_of lines (process_repository octokit)) s1) !! org
       = Some a ∧
     OrgsGet org ∉ issued (for_of lines (process_repository octokit)) s1) ∧
  (∀ s1 a fullName repo,
     orgAccessCache s1 !! org = Some a →
     names fullName = Some (org, repo) →
     let s2 := printed ConsoleLog
                 (newline +:+ "Processing repository: " +:+ org +:+ "/" +:+ repo) s1 in
     outcome (access_gate octokit org) s2 = Ok (hasAccess a) ∧
     issued (access_gate octokit org) s2 = [] ∧
     process_repository octokit fullName s1 =
       if hasAccess a then try_triage octokit org repo s2
       else (Ok tt, with_stats inc_saml_blocked
                      (printed ConsoleError (access_denied_line a) s2))) ∧
  (∀ before fullName rest repo,
     repos = before ++ fullName :: rest →
     names fullName = Some (org, repo) →
     org ∈ owners before →
     let s1 := after (for_of before (process_repository octokit)) (started s) in
     ∃ a s0 later,
       orgAccessCache s1 !! org = Some a ∧
       calls s1 = calls s0 ++ OrgsGet org :: later ∧
       outcome (checkSAMLAccess octokit org) s0 = Ok a).
Proof.
  split; [|split; [|split]].
  - destruct (main_run octokit repos s) as (_ & Hcalls & _).
    destruct (for_of_process_probes octokit repos (started s) (calls s) [])
      as (t & Ht & Hinv & Hdom).
    { simpl. by rewrite app_nil_r. }
    { intros o. simpl. by rewrite lookup_empty. }
    rewrite Ht in Hcalls. apply issued_eq in Hcalls. rewrite Hcalls, Hinv.
    specialize (Hdom org). simpl in Hdom. rewrite lookup_empty in Hdom.
    case_bool_decide as Hin.
    + destruct Hdom as [_ [a ->]]; [by right|done].
    + destruct (orgAccessCache _ !! org) eqn:E; [|done].
      destruct Hdom as [[[? [=]]|?] _]; [by eauto|done].
  - intros s1 a lines Ha.
    destruct (for_of_process_keeps_cached octokit lines s1 org a Ha) as [Ha' He].
    split; [done|]. apply emits_issued in He as [_ HF].
    intros Hin. rewrite Forall_forall in HF. by apply (HF _ Hin).
  - intros s1 a fullName repo Ha Hname s2.
    destruct (access_gate_cached octokit org a s2 Ha) as (Hout & Hcalls & _).
    split; [done|]. split.
    + apply issued_eq. by rewrite app_nil_r.
    + by apply process_repository_cached.
  - intros before fullName rest repo _ Hname Hin s1.
    destruct (for_of_process_probes octokit before (started s) (calls s) [])
      as (t & _ & _ & Hdom).
    { simpl. by rewrite app_nil_r. }
    { intros o. simpl. by rewrite lookup_empty. }
    specialize (Hdom org). fold s1 in Hdom. simpl in Hdom.
    rewrite lookup_empty in Hdom.
    destruct Hdom as [_ [a Ha]]; [by right|].
    destruct (for_of_process_cached_as_probed octokit before (started s))
      with (org := org) (a := a) as (s0 & later & E & Hout).
    { intros o a0. simpl. by rewrite lookup_empty. }
    { exact Ha. }
    by exists a, s0, later.
Qed.

(** Three lines name [acme]: one probe, two listings of [acme/app], and the
    third line goes to the listing with the entry the first line made. *)
Lemma organization_probed_once_witness :
  let run := main github_green ["acme/app"; "acme/lib"; "acme/app"] in
  let s1 := after (for_of ["acme/app"; "acme/lib"] (process_repository github_green))
              (started fresh) in
  count_occ Call_eq_dec (issued run fresh) (OrgsGet "acme") = 1%nat ∧
  count_occ Call_eq_dec (issued run fresh) (PullsList "acme" "app" "open") = 2%nat ∧
  orgAccessCache s1 !! "acme" = Some {| hasAccess := true; error := None |} ∧
  process_repository github_green "acme/app" s1 =
    try_triage github_green "acme" "app"
      (printed ConsoleLog (newline +:+ "Processing repository: acme/app") s1).
Proof.
  intros run s1.
  destruct (organization_probed_once github_green
              ["acme/app"; "acme/lib"; "acme/app"] fresh "acme")
    as (Hcount & _ & Hreuse & _).
  split; [exact Hcount|]. split; [reflexivity|].
  assert (orgAccessCache s1 !! "acme" = Some {| hasAccess := true; error := None |})
    as Ha by reflexivity.
  split; [exact Ha|].
  destruct (Hreuse s1 _ "acme/app" "app" Ha) as (_ & _ & E); [reflexivity|].
  exact E.
Defined.

(** C6: when the probe of an organization answers 403, a run sends no
    request about that organization but the probe, and each accepted line
    that names a repository of the organization adds exactly one to the
    blocked counter: the first such line sends the probe, the later ones
    send nothing. *)
Theorem forbidden_organization_only_probed (octokit : Octokit) org :
  (∀ h, ∃ e, octokit h (OrgsGet org) = Throw e ∧ Js.status e = Some 403) →
  ∀ repos s,
    Forall (only_probes org) (issued (main octokit repos) s) ∧
    ∀ before fullName rest repo,
      repos = before ++ fullName :: rest →
      names fullName = Some (org, repo) →
      let s1 := after (for_of before (process_repository octokit)) (started s) in
      stats (after (process_repository octokit fullName) s1)
        = inc_saml_blocked (stats s1) ∧
      issued (process_repository octokit fullName) s1
        = if bool_decide (org ∈ owners before) then [] else [OrgsGet org].
Proof.
  intros forbidden repos s.
  assert (denied org (started s)) as Hden0.
  { intros a. simpl. by rewrite lookup_empty. }
  split.
  - destruct (main_run octokit repos s) as (_ & Hcalls & _).
    destruct (for_of_process_forbidden octokit org forbidden repos (started s) Hden0)
      as [_ (t & Ht & HF)].
    simpl in Ht. rewrite Ht in Hcalls. apply issued_eq in Hcalls. by rewrite Hcalls.
  - intros before fullName rest repo _ Hname s1.
    destruct (for_of_process_forbidden octokit org forbidden before (started s) Hden0)
      as [Hden1 _]. fold s1 in Hden1.
    destruct (process_repository_forbidden octokit org forbidden fullName s1 Hden1)
      as (_ & _ & Hstep).
    destruct (Hstep repo Hname) as [Hstats Hissued]. split; [done|].
    rewrite Hissued.
    destruct (for_of_process_probes octokit before (started s) (calls s) [])
      as (t & _ & _ & Hdom).
    { simpl. by rewrite app_nil_r. }
    { intros o. simpl. by rewrite lookup_empty. }
    specialize (Hdom org). fold s1 in Hdom. simpl in Hdom.
    rewrite lookup_empty in Hdom.
    case_bool_decide as Hin.
    + destruct Hdom as [_ [a ->]]; [by right|done].
    + destruct (orgAccessCache s1 !! org) eqn:E; [|done].
      destruct Hdom as [[[? [=]]|?] _]; [by eauto|done].
Qed.

(** Two repositories of an organization that answers 403: one probe, no
    other request, two blocked repositories. *)
Lemma forbidden_organization_only_probed_witness :
  let repos := ["acme/app"; "acme/lib"] in
  let s1 := after (for_of ["acme/app"] (process_repository github_forbidden))
              (started fresh) in
  Forall (only_probes "acme") (issued (main github_forbidden repos) fresh) ∧
  stats (after (process_repository github_forbidden "acme/lib") s1)
    = inc_saml_blocked (stats s1) ∧
  issued (process_repository github_forbidden "acme/lib") s1 = [] ∧
  issued (main github_forbidden repos) fresh = [OrgsGet "acme"] ∧
  saml_blocked (stats (after (main github_forbidden repos) fresh)) = 2%N.
Proof.
  intros repos s1.
  destruct (forbidden_organization_only_probed github_forbidden "acme") with
    (repos := repos) (s := fresh) as [Hcalls Hstep].
  { intros h. eexists. split; reflexivity. }
  split; [exact Hcalls|].
  destruct (Hstep ["acme/app"] "acme/lib" [] "lib") as [Hstats Hissued];
    [reflexivity | reflexivity |].
  split; [exact Hstats|]. split; [exact Hissued|]. split; reflexivity.
Defined.

(** C2, as the script has it: an exception raised while a pull request is
    processed is caught by the [catch] block around the whole repository.
    The pull requests listed after the failing one are not processed in the
    pass: the run leaves the repository with the requests sent up to the
    failure, and with one more blocked repository when the status of the
    exception is 403 or 401, one more skipped otherwise.  No line of the
    repository list makes the loop throw, so the lines that follow are
    processed. *)
Theorem exception_ends_repository (octokit : Octokit) :
  (∀ fullName s, outcome (process_repository octokit fullName) s = Ok tt) ∧
  (∀ lines1 lines2 s,
     after (for_of (lines1 ++ lines2) (process_repository octokit)) s
     = after (for_of lines2 (process_repository octokit))
         (after (for_of lines1 (process_repository octokit)) s)) ∧
  (∀ owner repo s pullRequests before pr rest e,
     octokit (calls s) (PullsList owner repo "open") = Ok pullRequests →
     filter (λ pr, is_dependabot pr = true) pullRequests = before ++ pr :: rest →
     let triage := triage_pull_request octokit owner repo in
     let s1 := after (for_of before triage) (sent (PullsList owner repo "open") s) in
     outcome (for_of before triage) (sent (PullsList owner repo "open") s) = Ok tt →
     outcome (triage pr) s1 = Throw e →
     let s2 := after (triage pr) s1 in
     outcome (try_triage octokit owner repo) s = Ok tt ∧
     calls (after (try_triage octokit owner repo) s) = calls s2 ∧
     stats (after (try_triage octokit owner repo) s)
       = if bool_decide (Js.status e = Some 403 ∨ Js.status e = Some 401)
         then inc_saml_blocked (stats s2) else inc_skipped (stats s2)).
Proof.
  split; [|split].
  - intros fullName s. by destruct (process_repository_step octokit fullName s).
  - apply for_of_process_app.
  - intros owner repo s pullRequests before pr rest e Hlist Hfilter triage s1
      Hbefore Hthrow s2.
    split; [apply try_triage_outcome|].
    assert (triage_repository octokit owner repo s = (Throw e, s2)) as Hrun.
    { unfold triage_repository, bind, request. rewrite Hlist, Hfilter.
      rewrite bool_decide_eq_false_2.
      - by apply for_of_throw.
      - rewrite length_app. simpl. lia. }
    unfold try_triage, after, try_catch. rewrite Hrun.
    unfold triage_failed.
    destruct (bool_decide (Js.status e = Some 403)) eqn:E403; decided.
    { rewrite bool_decide_eq_true_2 by tauto. by exec. }
    destruct (bool_decide (Js.status e = Some 401)) eqn:E401; decided.
    { rewrite bool_decide_eq_true_2 by tauto. by exec. }
    rewrite bool_decide_eq_false_2 by tauto. by exec.
Qed.

(** Fetching pull request 7 fails: the pass over [acme/app] ends there, one
    repository skipped. *)
Lemma exception_ends_repository_witness :
  calls (after (try_triage github_fetch_fails "acme" "app") fresh)
    = [PullsList "acme" "app" "open"; PullsGet "acme" "app" 7] ∧
  stats (after (try_triage github_fetch_fails "acme" "app") fresh)
    = inc_skipped no_stats.
Proof.
  destruct (exception_ends_repository github_fetch_fails) as (_ & _ & H).
  destruct (H "acme" "app" fresh [bump; bump_next] [] bump [bump_next]
              (http_error 500 "Server Error")) as (_ & Hcalls & Hstats).
  - reflexivity.
  - reflexivity.
  - reflexivity.
  - reflexivity.
  - split; [exact Hcalls | exact Hstats].
Defined.

(** C2 as stated fails: pull requests 7 and 8 of Dependabot are open in
    [acme/app]; fetching 7 fails, and the run sends no request for 8: it goes
    on with [acme/lib], where the same happens.  Each repository is
    counted once as skipped. *)
Lemma exception_drops_sibling_pull_request :
  let run := main github_fetch_fails ["acme/app"; "acme/lib"] in
  filter (λ pr, is_dependabot pr = true) [bump; bump_next] = [bump; bump_next] ∧
  issued run fresh =
    [OrgsGet "acme";
     PullsList "acme" "app" "open"; PullsGet "acme" "app" 7;
     PullsList "acme" "lib" "open"; PullsGet "acme" "lib" 7] ∧
  (PullsGet "acme" "app" 8 ∉ issued run fresh) ∧
  stats (after run fresh) =
    {| approved := 0; skipped := 2; updated := 0; saml_blocked := 0 |}.
Proof.
  intros run. split; [reflexivity|]. split; [reflexivity|]. split; [|reflexivity].
  assert (issued run fresh =
    [OrgsGet "acme";
     PullsList "acme" "app" "open"; PullsGet "acme" "app" 7;
     PullsList "acme" "lib" "open"; PullsGet "acme" "lib" 7]) as -> by reflexivity.
  intros Hin. absurd_member Hin.
Qed.

(** C7, as the script has it: a run keeps four counters, approved, skipped,
    updated and saml_blocked.  They are zero when the loop over the
    repositories starts and none decreases while it runs; the summary that
    ends the run shows the approved, skipped and updated counters the loop
    left, and the blocked counter when it is not zero.  A pull request that
    is not green and an exception whose status is neither 403 nor 401 are
    added to the same counter, skipped. *)
Theorem four_counters_one_skipped (octokit : Octokit) :
  (∀ repos s,
     let final := after (for_of repos (process_repository octokit)) (started s) in
     stats (started s) = no_stats ∧
     (∀ lines1 lines2, repos = lines1 ++ lines2 →
        stats_le (stats (after (for_of lines1 (process_repository octokit)) (started s)))
                 (stats final)) ∧
     stats (after (main octokit repos) s) = stats final ∧
     console (after (main octokit repos) s) = console final ++ summary (stats final)) ∧
  (∀ st,
     (ConsoleLog, approved_line st) ∈ summary st ∧
     (ConsoleLog, skipped_line st) ∈ summary st ∧
     (ConsoleLog, updated_line st) ∈ summary st ∧
     ((ConsoleLog, saml_blocked_line st) ∈ summary st ↔ (0 < saml_blocked st)%N) ∧
     length (summary st) = if bool_decide (0 < saml_blocked st)%N then 12%nat else 7%nat) ∧
  (∀ owner repo pr s details,
     octokit (calls s) (fetch_call owner repo pr) = Ok details →
     is_outdated details = false →
     (∀ data, octokit (calls s ++ [fetch_call owner repo pr]) (status_call owner repo pr)
                = Ok data → state data ≠ "success") →
     outcome (triage_pull_request octokit owner repo pr) s = Ok tt ∧
     stats (after (triage_pull_request octokit owner repo pr) s) = inc_skipped (stats s)) ∧
  (∀ owner repo e s,
     Js.status e ≠ Some 403 → Js.status e ≠ Some 401 →
     stats (after (triage_failed owner repo e) s) = inc_skipped (stats s)).
Proof.
  split; [|split; [|split]].
  - intros repos s final. split; [done|]. split.
    + intros lines1 lines2 ->. subst final. rewrite for_of_process_app.
      apply for_of_process_counters_grow.
    + by destruct (main_run octokit repos s) as (_ & _ & ? & ?).
  - intros st. unfold summary, print_summary. exec.
    destruct (decide (0 < saml_blocked st)%N) as [Hpos|Hzero].
    + rewrite !bool_decide_eq_true_2 by done. exec.
      repeat split; try done; try (rewrite !elem_of_cons; tauto).
    + rewrite !bool_decide_eq_false_2 by done. exec.
      repeat split; try done; try (rewrite !elem_of_cons; tauto).
      intros Hin. exfalso. revert Hin. rewrite !elem_of_cons, elem_of_nil.
      unfold saml_blocked_line, approved_line, skipped_line, updated_line, rule.
      intros [H|[H|[H|[H|[H|[H|[H|[]]]]]]]]; discriminate H.
  - intros owner repo pr s details Hd Hfresh Hred.
    unfold fetch_call, status_call in *.
    unfold triage_pull_request, syncBranchIfBehind, isPullRequestGreen.
    exec. rewrite Hd. exec. rewrite Hfresh. exec. tidy.
    case_answer; exec; [|done].
    rewrite bool_decide_eq_false_2 by (by apply Hred). by exec.
  - intros owner repo e s H403 H401. unfold triage_failed.
    rewrite !bool_decide_eq_false_2 by done. by exec.
Qed.

(** A run with one pull request that is not green: one skipped, shown by
    the summary; an exception with status 500 counts as skipped too. *)
Lemma four_counters_one_skipped_witness :
  let run := main github_pending ["acme/app"] in
  stats (after run fresh) = inc_skipped no_stats ∧
  (ConsoleLog, skipped_line (inc_skipped no_stats)) ∈ console (after run fresh) ∧
  stats (after (triage_failed "acme" "app" (http_error 500 "Server Error")) fresh)
    = inc_skipped no_stats.
Proof.
  intros run. subst run.
  destruct (four_counters_one_skipped github_pending)
    as (Hrun & Hsummary & Hred & Hother).
  destruct (Hrun ["acme/app"] fresh) as (_ & _ & Hstats & Hconsole).
  split; [rewrite Hstats; reflexivity|]. split.
  - rewrite Hconsole. apply elem_of_app. right.
    apply (Hsummary (inc_skipped no_stats)).
  - apply Hother; discriminate.
Defined.

(** C7 as stated fails: the run against [github_pending] skips a pull
    request that is not green, the run against [github_fetch_fails] skips a
    repository on an exception, and the two runs end with the same four
    counters and the same summary; no line of it tells the two kinds of
    skip apart. *)
Lemma summary_merges_skips :
  let not_green := after (main github_pending ["acme/app"]) fresh in
  let failed := after (main github_fetch_fails ["acme/app"]) fresh in
  (ConsoleLog, "    PR #7 is NOT green. Skipping approval.") ∈ console not_green ∧
  (ConsoleError, "Error processing acme/app: Server Error") ∈ console failed ∧
  stats not_green = {| approved := 0; skipped := 1; updated := 0; saml_blocked := 0 |} ∧
  stats failed = {| approved := 0; skipped := 1; updated := 0; saml_blocked := 0 |} ∧
  summary (stats not_green) = summary (stats failed) ∧
  length (summary (stats not_green)) = 7%nat.
Proof.
  intros not_green failed.
  split; [|split; [|split; [|split; [|split]]]]; try reflexivity.
  - apply list_elem_of_In. vm_compute. tauto.
  - apply list_elem_of_In. vm_compute. tauto.
Qed.

(** * Further properties *)

(** ** The lines of the repository list *)

Lemma split_not_nil sep s : Js.split sep s ≠ [].
Proof.
  destruct s as [|c s]; simpl; [done|].
  destruct (decide (c = sep)); [done|]. by destruct (Js.split sep s).
Qed.

(** Joining what [split] gives back the string. *)
Lemma join_split sep s : join sep (Js.split sep s) = s.
Proof.
  induction s as [|c s IH]; [done|]. simpl.
  destruct (decide (c = sep)) as [->|Hne].
  - pose proof (split_not_nil sep s) as Hnil.
    change (join sep (EmptyString :: Js.split sep s))
      with (match Js.split sep s with
            | [] => EmptyString
            | _ => EmptyString +:+ String sep (join sep (Js.split sep s))
            end).
    destruct (Js.split sep s); [done|]. simpl in *. by rewrite IH.
  - pose proof (split_not_nil sep s) as Hnil.
    destruct (Js.split sep s) as [|w ws]; [done|].
    destruct ws as [|w' ws]; simpl in *; by rewrite <- IH.
Qed.

(** No part holds the separator. *)
Lemma split_no_separator sep s : Forall (λ part, occurs sep part = false) (Js.split sep s).
Proof.
  induction s as [|c s IH]; simpl; [by repeat constructor|].
  destruct (decide (c = sep)) as [->|Hne]; [by constructor|].
  destruct (Js.split sep s) as [|w ws]; simpl.
  - repeat constructor. simpl. by rewrite bool_decide_eq_false_2.
  - inversion IH; subst. constructor; [|done]. simpl.
    by rewrite bool_decide_eq_false_2.
Qed.

(** [split] finds the parts again. *)
Lemma split_part sep part :
  occurs sep part = false → Js.split sep part = [part].
Proof.
  induction part as [|c part IH]; simpl; [done|]. intros H.
  apply orb_false_iff in H as [Hc Hpart]. apply bool_decide_eq_false_1 in Hc.
  destruct (decide (c = sep)); [done|]. by rewrite IH.
Qed.

Lemma split_cons sep part s :
  occurs sep part = false →
  Js.split sep (part +:+ String sep s) = part :: Js.split sep s.
Proof.
  induction part as [|c part IH]; simpl; intros H.
  - by destruct (decide (sep = sep)).
  - apply orb_false_iff in H as [Hc Hpart]. apply bool_decide_eq_false_1 in Hc.
    destruct (decide (c = sep)); [done|]. by rewrite IH.
Qed.

(** What [names] accepts, read off the line. *)
Lemma names_spec fullName owner repo :
  names fullName = Some (owner, repo) ↔ names_repository fullName owner repo.
Proof.
  unfold names, names_repository. split.
  - pose proof (join_split "/" fullName) as Hjoin.
    pose proof (split_no_separator "/" fullName) as Hfree.
    destruct (Js.split "/" fullName) as [|o [|r parts]]; try done.
    case_bool_decide as Hne; [|done]. intros [= -> ->].
    destruct Hne as [Ho Hr].
    apply Forall_cons in Hfree as [Hfo Hfree'].
    apply Forall_cons in Hfree' as [Hfr _].
    repeat (split; [done|]).
    destruct parts as [|p parts]; simpl in Hjoin.
    + by left.
    + right. eexists. symmetry. exact Hjoin.
  - intros (Ho & Hr & Hfo & Hfr & [->|[more ->]]).
    + change (owner +:+ "/" +:+ repo) with (owner +:+ String "/" repo).
      rewrite split_cons, split_part by done.
      by rewrite bool_decide_eq_true_2.
    + change (owner +:+ "/" +:+ repo +:+ "/" +:+ more)
        with (owner +:+ String "/" (repo +:+ String "/" more)).
      rewrite !split_cons by done.
      by rewrite bool_decide_eq_true_2.
Qed.

Section Lines.

Variable octokit : Octokit.

Lemma process_repository_warned fullName s :
  names fullName = None →
  process_repository octokit fullName s =
    (Ok tt, printed ConsoleWarn (invalid_line_warning fullName) s).
Proof.
  unfold names, process_repository, invalid_line_warning. intros H.
  destruct (Js.split "/" fullName) as [|owner [|repo parts]]; exec; try done.
  { by destruct (bool_decide (owner = "")). }
  destruct (decide (owner ≠ "" ∧ repo ≠ "")) as [Hne|Hne];
    [by rewrite bool_decide_eq_true_2 in H|].
  destruct (bool_decide (owner = "")) eqn:E1; exec; [done|].
  destruct (bool_decide (repo = "")) eqn:E2; exec; [done|].
  destruct Hne. decided. done.
Qed.

(** X1: a line is accepted when it is [owner/repo] with an owner and a
    repository that are not empty, whatever follows a second slash; the
    script then runs the gate and the triage for that owner and repository.
    Any other line gets the warning of line 191 and nothing else: no
    request, no counter, no cache entry. *)
Theorem line_accepted_or_warned fullName s :
  (∃ owner repo,
     names_repository fullName owner repo ∧
     process_repository octokit fullName s =
       gated_triage octokit owner repo
         (printed ConsoleLog
            (newline +:+ "Processing repository: " +:+ owner +:+ "/" +:+ repo) s)) ∨
  ((∀ owner repo, ¬ names_repository fullName owner repo) ∧
   process_repository octokit fullName s =
     (Ok tt, printed ConsoleWarn (invalid_line_warning fullName) s)).
Proof.
  destruct (names fullName) as [[owner repo]|] eqn:Hn.
  - left. exists owner, repo. split; [by apply names_spec|].
    by apply process_repository_accepted.
  - right. split.
    + intros owner repo H. apply names_spec in H. congruence.
    + by apply process_repository_warned.
Qed.

End Lines.

(** ** The filter on the author *)

Lemma startsWith_spec needle s :
  Js.startsWith needle s = true ↔ ∃ post, s = needle +:+ post.
Proof.
  revert s. induction needle as [|a needle IH]; intros s; simpl.
  - split; [by eauto|done].
  - destruct s as [|b s].
    + split; [done|]. by intros [post H].
    + rewrite andb_true_iff, bool_decide_eq_true, IH. split.
      * intros [-> [post ->]]. by eauto.
      * intros [post [= -> ->]]. by eauto.
Qed.

(** [includes] is the test for a substring. *)
Lemma includes_spec needle s :
  Js.includes needle s = true ↔ ∃ pre post, s = pre +:+ needle +:+ post.
Proof.
  induction s as [|c s IH]; simpl.
  - rewrite orb_false_r, startsWith_spec. split.
    + intros [post H]. by exists EmptyString, post.
    + intros (pre & post & H). destruct pre; simpl in H; [by eauto|done].
  - rewrite orb_true_iff, startsWith_spec, IH. split.
    + intros [[post H]|(pre & post & ->)].
      * by exists EmptyString, post.
      * by exists (String c pre), post.
    + intros (pre & post & H). destruct pre as [|c' pre]; simpl in H.
      * left. by eauto.
      * right. injection H as -> ->. by eauto.
Qed.

(** X2: the filter keeps a pull request exactly when it has an author whose
    login, put in lower case, holds the word dependabot somewhere; a pull
    request without author is dropped. *)
Theorem is_dependabot_iff pr :
  is_dependabot pr = true ↔
  ∃ author before after,
    user pr = Some author ∧
    Js.toLowerCase (login author) = before +:+ "dependabot" +:+ after.
Proof.
  unfold is_dependabot. destruct (user pr) as [author|].
  - rewrite includes_spec. split.
    + intros (pre & post & H). by exists author, pre, post.
    + intros (a & pre & post & [= <-] & H). by eauto.
  - split; [done|]. by intros (a & pre & post & [=] & _).
Qed.

(** ** Functions on their own *)

#[global] Instance same_stats_preorder : PreOrder same_stats.
Proof.
  split; [by intros s|]. intros s1 s2 s3 H12 H23. unfold same_stats in *. congruence.
Qed.

Section MoreFunctions.

Variable octokit : Octokit.
Variables owner repo : string.

(** X3: [syncBranchIfBehind] never throws and touches neither the counters
    nor the cache.  For a pull request that is neither behind nor blocked
    it does nothing at all; for the others it sends one update-branch
    request and answers whether GitHub took it.  A rejection with status
    422 is printed with [console.log], any other with [console.error]. *)
Theorem syncBranchIfBehind_outcome pr s :
  let update := UpdateBranch owner repo (number pr) (sha (head pr)) in
  let run := syncBranchIfBehind octokit owner repo pr in
  stats (after run s) = stats s ∧
  orgAccessCache (after run s) = orgAccessCache s ∧
  if is_outdated pr then
    issued run s = [update] ∧
    match octokit (calls s) update with
    | Ok _ => outcome run s = Ok true
    | Throw e =>
        outcome run s = Ok false ∧
        ∃ line,
          last (console (after run s))
          = Some (if bool_decide (Js.status e = Some 422)
                  then ConsoleLog else ConsoleError, line)
    end
  else run s = (Ok false, s).
Proof.
  intros update run. subst update run. unfold syncBranchIfBehind.
  destruct (is_outdated pr); exec; [|done].
  destruct (octokit (calls s) _) as [u|e] eqn:E; exec.
  - repeat (split; [done|]). split; [|done]. apply issued_eq. exec. by rewrite E.
  - destruct (bool_decide (Js.status e = Some 422)); exec.
    all: repeat (split; [done|]).
    all: split; [apply issued_eq; exec; by rewrite E; destruct (bool_decide _)|].
    all: split; [done|]; eexists; by rewrite last_snoc.
Qed.

Variable n : Z.

(** X4: [approvePullRequest] catches nothing and counts nothing: an error
    of the identity request, of the review listing or of the review
    creation is thrown on as it is, after the requests sent so far. *)
Theorem approvePullRequest_propagates s :
  let whoami := GetAuthenticated in
  let list := ListReviews owner repo n in
  let create := CreateReview owner repo n "APPROVE" "" in
  let run := approvePullRequest octokit owner repo n in
  stats (after run s) = stats s ∧
  orgAccessCache (after run s) = orgAccessCache s ∧
  (∀ e, octokit (calls s) whoami = Throw e →
     outcome run s = Throw e ∧ issued run s = [whoami]) ∧
  (∀ me e,
     octokit (calls s) whoami = Ok me →
     octokit (calls s ++ [whoami]) list = Throw e →
     outcome run s = Throw e ∧ issued run s = [whoami; list]) ∧
  (∀ me reviews e,
     octokit (calls s) whoami = Ok me →
     octokit (calls s ++ [whoami]) list = Ok reviews →
     Forall (λ rv, is_Some (review_user rv) ∧ ¬ approved_by_identity me rv) reviews →
     octokit (calls s ++ [whoami; list]) create = Throw e →
     outcome run s = Throw e ∧ issued run s = [whoami; list; create]).
Proof.
  intros whoami list create run. subst whoami list create run.
  split; [|split; [|split; [|split]]].
  - apply (keeps_approvePullRequest same_stats octokit (λ _, True)); done.
  - apply (keeps_approvePullRequest same_cache octokit (λ _, True)); done.
  - intros e He. split; [|apply issued_eq].
    all: unfold approvePullRequest; exec; by rewrite He.
  - intros me e Hme He. split; [|apply issued_eq].
    all: unfold approvePullRequest; exec; rewrite Hme; exec; rewrite He; exec;
      by tidy.
  - intros me reviews e Hme Hrs Hnone He. apply some_not_approved_by in Hnone.
    split; [|apply issued_eq].
    all: unfold approvePullRequest; exec; rewrite Hme; exec; rewrite Hrs; exec;
      rewrite Hnone; exec; tidy; rewrite He; exec; by tidy.
Qed.

(** [some] throws on the first review without author it reaches. *)
Lemma some_null_author me before rv rest :
  Forall (λ r, is_Some (review_user r) ∧ ¬ approved_by_identity me r) before →
  review_user rv = None →
  Js.some (approved_by (login me)) (before ++ rv :: rest) = Throw (Js.TypeError "login").
Proof.
  intros Hbefore Hnull. induction Hbefore as [|r l [[u Hu] Hn] _ IH]; simpl.
  - unfold approved_by. by rewrite Hnull.
  - unfold approved_by at 1. rewrite Hu.
    destruct (bool_decide (login u = login me)) eqn:E1;
      destruct (bool_decide (review_state r = "APPROVED")) eqn:E2; simpl; try done.
    destruct Hn. exists u. by rewrite bool_decide_eq_true in E1, E2.
Qed.

(** X5: a review without author, listed before any approval by the owner
    of the token, makes [approvePullRequest] throw a [TypeError] after the
    listing: no review is created, whatever reviews follow it. *)
Theorem approvePullRequest_null_author s me before rv rest :
  octokit (calls s) GetAuthenticated = Ok me →
  octokit (calls s ++ [GetAuthenticated]) (ListReviews owner repo n)
    = Ok (before ++ rv :: rest) →
  Forall (λ r, is_Some (review_user r) ∧ ¬ approved_by_identity me r) before →
  review_user rv = None →
  outcome (approvePullRequest octokit owner repo n) s = Throw (Js.TypeError "login") ∧
  issued (approvePullRequest octokit owner repo n) s
    = [GetAuthenticated; ListReviews owner repo n].
Proof.
  intros Hme Hrs Hbefore Hnull.
  pose proof (some_null_author me before rv rest Hbefore Hnull) as Hsome.
  split; [|apply issued_eq].
  all: unfold approvePullRequest; exec; rewrite Hme; exec; rewrite Hrs; exec;
    rewrite Hsome; exec; by tidy.
Qed.

(** What a pass over a pull request does to the counters. *)
Lemma triage_pull_request_counts pr s :
  let run := triage_pull_request octokit owner repo pr in
  match outcome run s with
  | Ok _ =>
      stats (after run s) = inc_updated (stats s) ∨
      stats (after run s) = inc_skipped (stats s) ∨
      stats (after run s) = inc_approved (stats s)
  | Throw _ => stats (after run s) = stats s
  end.
Proof.
  intros run. subst run.
  unfold triage_pull_request, syncBranchIfBehind, isPullRequestGreen, approvePullRequest.
  exec. destruct (octokit (calls s) (PullsGet owner repo (number pr)))
    as [details|e] eqn:Hd; exec; [|done].
  destruct (is_outdated details); crunch;
    first [done | by left | by right; left | by right; right].
Qed.

(** X6: a pass over a pull request that ends without exception adds one to
    exactly one of the counters updated, skipped and approved; a pass that
    throws leaves the counters as they were.  The cache is not touched. *)
Theorem triage_pull_request_counted_once pr s :
  let run := triage_pull_request octokit owner repo pr in
  orgAccessCache (after run s) = orgAccessCache s ∧
  match outcome run s with
  | Ok _ =>
      stats (after run s) = inc_updated (stats s) ∨
      stats (after run s) = inc_skipped (stats s) ∨
      stats (after run s) = inc_approved (stats s)
  | Throw _ => stats (after run s) = stats s
  end.
Proof.
  intros run. subst run. split; [|apply triage_pull_request_counts].
  apply (keeps_triage_pull_request same_cache octokit (λ _, True)); done.
Qed.

End MoreFunctions.

(** Against [github_ghost_review] the approval by [octocat] comes after a
    review without author: the pass throws before it reads it. *)
Lemma approvePullRequest_null_author_witness :
  outcome (approvePullRequest github_ghost_review "acme" "app" 7) fresh
    = Throw (Js.TypeError "login") ∧
  issued (approvePullRequest github_ghost_review "acme" "app" 7) fresh
    = [GetAuthenticated; ListReviews "acme" "app" 7].
Proof.
  apply (approvePullRequest_null_author github_ghost_review "acme" "app" 7
           fresh octocat [] ghost_review [approval]).
  - reflexivity.
  - reflexivity.
  - constructor.
  - reflexivity.
Defined.

(** GitHub refuses the review: the error comes out of
    [approvePullRequest]. *)
Lemma approvePullRequest_propagates_witness :
  outcome (approvePullRequest github_review_refused "acme" "app" 7) fresh
    = Throw (http_error 422 "Validation Failed") ∧
  issued (approvePullRequest github_review_refused "acme" "app" 7) fresh
    = [GetAuthenticated; ListReviews "acme" "app" 7;
       CreateReview "acme" "app" 7 "APPROVE" ""].
Proof.
  destruct (approvePullRequest_propagates github_review_refused "acme" "app" 7 fresh)
    as (_ & _ & _ & _ & H).
  apply (H octocat [] (http_error 422 "Validation Failed")).
  - reflexivity.
  - reflexivity.
  - constructor.
  - reflexivity.
Defined.

(** ** One repository *)

Lemma emits_weaken (Q Q' : Call → Prop) s s' :
  (∀ c, Q c → Q' c) → emits Q s s' → emits Q' s s'.
Proof. intros H (t & E & F). exists t. split; [done|]. by eapply Forall_impl. Qed.

Lemma filter_none {A} (P : A → Prop) `{∀ x, Decision (P x)} l :
  Forall (λ x, ¬ P x) l → filter P l = [].
Proof.
  induction 1 as [|x l Hx _ IH]; [done|]. by rewrite filter_cons_False.
Qed.

Section Repository.

Variable octokit : Octokit.
Variables owner repo : string.

(** The [try] statement, split at the answer to the listing. *)
Lemma try_triage_listing s :
  try_triage octokit owner repo s =
  match octokit (calls s) (PullsList owner repo "open") with
  | Ok pullRequests =>
      try_catch (triage_listed octokit owner repo pullRequests)
        (triage_failed owner repo) (sent (PullsList owner repo "open") s)
  | Throw e => triage_failed owner repo e (sent (PullsList owner repo "open") s)
  end.
Proof.
  unfold try_triage, triage_repository, triage_listed, try_catch, bind, request.
  by destruct (octokit (calls s) (PullsList owner repo "open")).
Qed.

Lemma triage_failed_run e s :
  ∃ line,
    triage_failed owner repo e s =
      (Ok tt,
       with_stats (if bool_decide (Js.status e = Some 403 ∨ Js.status e = Some 401)
                   then inc_saml_blocked else inc_skipped)
         (printed ConsoleError line s)).
Proof.
  unfold triage_failed.
  destruct (bool_decide (Js.status e = Some 403)) eqn:E403; decided.
  { rewrite bool_decide_eq_true_2 by tauto. exec. by eauto. }
  destruct (bool_decide (Js.status e = Some 401)) eqn:E401; decided.
  { rewrite bool_decide_eq_true_2 by tauto. exec. by eauto. }
  rewrite bool_decide_eq_false_2 by tauto. exec. by eauto.
Qed.

(** X7: a repository without open pull request of Dependabot costs the
    listing and nothing else: one line is printed and no counter moves.  A
    listing that fails costs the listing too, and counts the repository as
    blocked for the status 403 or 401 and as skipped otherwise. *)
Theorem try_triage_nothing_to_do s :
  (∀ pullRequests,
     octokit (calls s) (PullsList owner repo "open") = Ok pullRequests →
     Forall (λ pr, is_dependabot pr = false) pullRequests →
     try_triage octokit owner repo s =
       (Ok tt, printed ConsoleLog "  No open Dependabot PRs found."
                 (sent (PullsList owner repo "open") s))) ∧
  (∀ e,
     octokit (calls s) (PullsList owner repo "open") = Throw e →
     outcome (try_triage octokit owner repo) s = Ok tt ∧
     issued (try_triage octokit owner repo) s = [PullsList owner repo "open"] ∧
     stats (after (try_triage octokit owner repo) s) =
       if bool_decide (Js.status e = Some 403 ∨ Js.status e = Some 401)
       then inc_saml_blocked (stats s) else inc_skipped (stats s)).
Proof.
  split.
  - intros prs Hlist Hnone. rewrite try_triage_listing, Hlist.
    unfold triage_listed. rewrite filter_none.
    + done.
    + eapply Forall_impl; [exact Hnone|]. intros pr ->. done.
  - intros e Hlist.
    destruct (triage_failed_run e (sent (PullsList owner repo "open") s)) as [line E].
    split; [|split; [apply issued_eq|]].
    all: unfold outcome, after; rewrite try_triage_listing, Hlist, E; simpl; try done.
    by destruct (bool_decide _).
Qed.

(** The requests of a pass are about the pull request as listed, but for
    the identity and the update of the branch. *)
Lemma triage_pull_request_about pr s :
  emits (about_some owner repo [pr]) s
    (after (triage_pull_request octokit owner repo pr) s) ∨
  is_dependabot pr = false.
Proof.
  destruct (is_dependabot pr) eqn:Hbot; [left|by right].
  assert (∀ c, about_listed owner repo pr c → about_some owner repo [pr] c) as Habout.
  { intros c Hc. right. right. exists pr. split; [by left|done]. }
  unfold emits.
  unfold triage_pull_request, syncBranchIfBehind, isPullRequestGreen, approvePullRequest.
  exec. destruct (octokit (calls s) (PullsGet owner repo (number pr)))
    as [details|e] eqn:Hd; exec.
  2: { eexists. split; [reflexivity|]. constructor; [|constructor].
       apply Habout. by left. }
  destruct (is_outdated details); crunch.
  all: eexists; (split; [reflexivity|]).
  all: repeat (apply Forall_cons; split); try apply Forall_nil.
  all: first [ done | by left | by right; left
             | apply Habout; unfold about_listed; tauto ].
Qed.

Lemma for_of_triage_about prs s :
  Forall (λ pr, is_dependabot pr = true) prs →
  emits (about_some owner repo prs) s
    (after (for_of prs (triage_pull_request octokit owner repo)) s).
Proof.
  intros Hbots. apply (keeps_for_of (emits (about_some owner repo prs))).
  intros pr Hin s0.
  destruct (triage_pull_request_about pr s0) as [He|Hno].
  - eapply emits_weaken; [|exact He].
    intros c [->|[Hu|(pr' & Hin' & Hbot & Hc)]]; [by left|by right; left|].
    right. right. exists pr'. apply list_elem_of_singleton in Hin' as ->. done.
  - rewrite Forall_forall in Hbots. rewrite (Hbots pr Hin) in Hno. done.
Qed.

(** The requests of the [try] statement: the listing, and then requests
    about the pull requests of Dependabot in the listing. *)
Lemma try_triage_about s pullRequests :
  octokit (calls s) (PullsList owner repo "open") = Ok pullRequests →
  ∃ rest,
    calls (after (try_triage octokit owner repo) s)
      = calls s ++ PullsList owner repo "open" :: rest ∧
    Forall (about_some owner repo pullRequests) rest.
Proof.
  intros Hlist. unfold after. rewrite try_triage_listing, Hlist.
  set (s0 := sent (PullsList owner repo "open") s).
  assert (emits (about_some owner repo pullRequests) s0
            (after (try_catch (triage_listed octokit owner repo pullRequests)
                      (triage_failed owner repo)) s0)) as (rest & E & HF).
  { apply keeps_try_catch; [apply _| |].
    - unfold triage_listed. case_bool_decide.
      + intros s1. apply emits_printed.
      + intros s1. eapply emits_weaken;
          [|apply for_of_triage_about].
        * intros c [->|[Hu|(pr & Hin & Hbot & Hc)]]; [by left|by right; left|].
          right. right. exists pr. apply list_elem_of_filter in Hin as [_ Hin]. done.
        * apply Forall_forall. intros pr Hin.
          by apply list_elem_of_filter in Hin as [Hbot _].
    - intros e s1. destruct (triage_failed_run e s1) as [line E].
      unfold after. rewrite E. by apply emits_same_calls. }
  exists rest. split; [|done]. unfold after in E. rewrite E. subst s0. simpl.
  by rewrite <- app_assoc.
Qed.

(** X8: the [try] statement sends the listing first; after it, every
    fetch, status query, review listing and review creation is about a
    pull request of the listing that the filter kept.  Pull requests of
    other authors are never fetched, queried, or approved. *)
Theorem try_triage_only_dependabot s pullRequests :
  octokit (calls s) (PullsList owner repo "open") = Ok pullRequests →
  ∃ rest,
    issued (try_triage octokit owner repo) s = PullsList owner repo "open" :: rest ∧
    Forall (about_some owner repo pullRequests) rest.
Proof.
  intros Hlist. destruct (try_triage_about s pullRequests Hlist) as (rest & E & HF).
  exists rest. split; [by apply issued_eq|done].
Qed.

(** A loop over pull requests that ends without exception counts each of
    them once, and blocks nothing. *)
Lemma for_of_triage_counts prs s :
  outcome (for_of prs (triage_pull_request octokit owner repo)) s = Ok tt →
  let s' := after (for_of prs (triage_pull_request octokit owner repo)) s in
  pull_requests_counted (stats s')
    = (pull_requests_counted (stats s) + N.of_nat (length prs))%N ∧
  saml_blocked (stats s') = saml_blocked (stats s).
Proof.
  revert s. induction prs as [|pr prs IH]; intros s Hok s'; subst s'.
  { unfold after. simpl. split; [lia|done]. }
  revert Hok. simpl. rewrite outcome_bind, after_bind.
  pose proof (triage_pull_request_counts octokit owner repo pr s) as Hstep.
  simpl in Hstep.
  destruct (outcome (triage_pull_request octokit owner repo pr) s) as [[]|e]; [|done].
  intros Hok. destruct (IH _ Hok) as [Hcount Hsaml].
  rewrite Hcount, Hsaml. unfold pull_requests_counted.
  destruct Hstep as [->|[->| ->]]; simpl; split; lia.
Qed.

(** X9: when the [try] block ends without exception, every pull request
    of Dependabot in the listing was counted once, as approved, skipped or
    updated, and the blocked counter did not move. *)
Theorem triage_repository_counts_each s pullRequests :
  octokit (calls s) (PullsList owner repo "open") = Ok pullRequests →
  outcome (triage_repository octokit owner repo) s = Ok tt →
  let s' := after (try_triage octokit owner repo) s in
  pull_requests_counted (stats s')
    = (pull_requests_counted (stats s)
       + N.of_nat (length (filter (λ pr, is_dependabot pr = true) pullRequests)))%N ∧
  saml_blocked (stats s') = saml_blocked (stats s).
Proof.
  intros Hlist Hok s'. subst s'.
  assert (after (try_triage octokit owner repo) s
          = after (triage_repository octokit owner repo) s) as ->.
  { unfold try_triage. rewrite after_try_catch. by rewrite Hok. }
  revert Hok. unfold outcome, after, triage_repository, bind, request.
  rewrite Hlist. case_bool_decide as Hlen.
  - rewrite Hlen. simpl. intros _. split; [lia|done].
  - intros Hok. apply (for_of_triage_counts _ (sent _ s)). exact Hok.
Qed.

End Repository.

(** The listing of [github_green] shows pull request 7, of Dependabot. *)
Lemma try_triage_only_dependabot_witness :
  ∃ rest,
    issued (try_triage github_green "acme" "app") fresh
      = PullsList "acme" "app" "open" :: rest ∧
    Forall (about_some "acme" "app" [bump]) rest.
Proof.
  apply (try_triage_only_dependabot github_green "acme" "app" fresh [bump]).
  reflexivity.
Defined.

(** Against [github_green] the one pull request is counted, as approved. *)
Lemma triage_repository_counts_each_witness :
  pull_requests_counted (stats (after (try_triage github_green "acme" "app") fresh))
    = 1%N.
Proof.
  destruct (triage_repository_counts_each github_green "acme" "app" fresh [bump])
    as [H _].
  - reflexivity.
  - reflexivity.
  - exact H.
Defined.

(** A listing with a pull request of somebody else only, and a listing that
    fails with status 404. *)
Lemma try_triage_nothing_to_do_witness :
  let other := {| number := 3; title := "Fix typo"; user := Some octocat;
                  head := {| sha := "f00" |}; mergeable_state := None |} in
  let listing := github (Ok tt) [other] (Ok (bump_details "clean")) (Ok tt)
                   (Ok {| state := "success" |}) (Ok tt) in
  issued (try_triage listing "acme" "app") fresh = [PullsList "acme" "app" "open"] ∧
  stats (after (try_triage listing "acme" "app") fresh) = no_stats.
Proof.
  intros other listing.
  destruct (try_triage_nothing_to_do listing "acme" "app" fresh) as [H _].
  unfold issued, after. rewrite (H [other]).
  - split; reflexivity.
  - reflexivity.
  - constructor; [reflexivity|constructor].
Defined.

(** ** The whole run *)

Section WholeRun.

Variable octokit : Octokit.

(** The [try] statement starts with the listing, whatever it answers. *)
Lemma try_triage_first owner repo s :
  ∃ rest,
    calls (after (try_triage octokit owner repo) s)
      = calls s ++ PullsList owner repo "open" :: rest.
Proof.
  destruct (octokit (calls s) (PullsList owner repo "open")) as [prs|e] eqn:Hlist.
  - destruct (try_triage_about octokit owner repo s prs Hlist) as (rest & E & _).
    by exists rest.
  - exists []. unfold after. rewrite try_triage_listing, Hlist.
    destruct (triage_failed_run owner repo e (sent (PullsList owner repo "open") s))
      as [line ->]. done.
Qed.

(** X10: the first accepted line that names an owner probes it.  When the
    probe fails with status 403 or 401 nothing else is sent and the
    repository is counted as blocked; on every other answer, the success of
    the probe or any other error, access is cached and the listing of the
    repository follows the probe. *)
Theorem first_line_of_owner fullName owner repo s :
  names_repository fullName owner repo →
  orgAccessCache s !! owner = None →
  let run := process_repository octokit fullName in
  let blocked :=
    match octokit (calls s) (OrgsGet owner) with
    | Ok _ => false
    | Throw e => bool_decide (Js.status e = Some 403 ∨ Js.status e = Some 401)
    end in
  if blocked then
    issued run s = [OrgsGet owner] ∧
    stats (after run s) = inc_saml_blocked (stats s) ∧
    (∃ a, orgAccessCache (after run s) !! owner = Some a ∧ hasAccess a = false)
  else
    (∃ rest, issued run s = OrgsGet owner :: PullsList owner repo "open" :: rest) ∧
    orgAccessCache (after run s) !! owner = Some {| hasAccess := true; error := None |}.
Proof.
  intros Hname Hnone run blocked. subst run. apply names_spec in Hname.
  unfold issued, after. rewrite (process_repository_accepted octokit _ _ _ s Hname).
  set (s0 := printed ConsoleLog _ s).
  change ((gated_triage octokit owner repo s0).2)
    with (after (gated_triage octokit owner repo) s0).
  unfold gated_triage. rewrite after_bind.
  destruct (access_gate_probed octokit owner s0 Hnone)
    as (a & Ha & Hout & Hcalls & Hcache & Hstats).
  rewrite Hout. set (s1 := after (access_gate octokit owner) s0) in *.
  assert (a = if blocked
              then {| hasAccess := false; error := error a |}
              else {| hasAccess := true; error := None |}) as Hblocked.
  { subst blocked. revert Ha. unfold checkSAMLAccess. exec.
    destruct (octokit (calls s) (OrgsGet owner)) as [u|e]; exec; [by intros [= <-]|].
    destruct (bool_decide (Js.status e = Some 403)) eqn:E403; decided.
    { rewrite bool_decide_eq_true_2 by tauto. exec. by intros [= <-]. }
    destruct (bool_decide (Js.status e = Some 401)) eqn:E401; decided.
    { rewrite bool_decide_eq_true_2 by tauto. exec. by intros [= <-]. }
    rewrite bool_decide_eq_false_2 by tauto. exec. by intros [= <-]. }
  destruct blocked.
  - rewrite Hblocked in *. simpl in *. unfold after at 1 2 3. simpl.
    rewrite Hcalls, Hstats, Hcache, lookup_insert_eq, drop_app_length.
    split; [done|]. split; [done|]. by eauto.
  - rewrite Hblocked in *. simpl in *.
    destruct (try_triage_first owner repo s1) as [rest Hrest].
    pose proof (try_triage_same_cache octokit owner repo s1) as Hsame.
    unfold same_cache in Hsame. rewrite Hsame, Hcache, lookup_insert_eq.
    split; [|done]. exists rest. rewrite Hrest, Hcalls, <- app_assoc.
    change (calls s0) with (calls s). by rewrite drop_app_length.
Qed.

(** The requests of a line are about that line. *)
Lemma process_repository_about fullName s :
  emits (about_line [fullName]) s (after (process_repository octokit fullName) s).
Proof.
  destruct (process_repository_step octokit fullName s) as [_ Hstep].
  destruct (names fullName) as [[owner repo]|] eqn:Hn.
  2: { destruct Hstep as (Hc & _). by apply emits_same_calls. }
  destruct Hstep as (a & probe & t & Hc & _ & Hcache & Ht).
  assert ((owner, repo) ∈ omap names [fullName]) as Hin.
  { apply list_elem_of_omap. exists fullName. split; [by left|done]. }
  exists (probe ++ t). split; [done|]. apply Forall_app. split.
  - destruct (orgAccessCache s !! owner).
    + destruct Hcache as (_ & -> & _). constructor.
    + destruct Hcache as (_ & -> & _). constructor; [|constructor].
      exists owner, repo. split; [done|by left].
  - destruct (hasAccess a).
    + destruct Ht as [HF _]. eapply Forall_impl; [exact HF|].
      intros c Hc'. exists owner, repo. split; [done|by right].
    + destruct Ht as [-> _]. constructor.
Qed.

Lemma for_of_process_about l s :
  emits (about_line l) s (after (for_of l (process_repository octokit)) s).
Proof.
  revert s. induction l as [|x l IH]; intros s; [reflexivity|].
  rewrite for_of_process_cons. etrans.
  - eapply emits_weaken; [|apply process_repository_about].
    intros c (o & r & Hin & Hc). exists o, r. split; [|done].
    change (x :: l) with ([x] ++ l). rewrite omap_app. apply elem_of_app. by left.
  - eapply emits_weaken; [|apply IH].
    intros c (o & r & Hin & Hc). exists o, r. split; [|done].
    change (x :: l) with ([x] ++ l). rewrite omap_app. apply elem_of_app. by right.
Qed.

(** X11: whatever GitHub answers and whatever the lines are, [main] ends
    without exception, so the handler of line 298 is never entered; and
    every request of the run is the probe of an owner, or a request of the
    triage of a repository, that an accepted line names. *)
Theorem main_completes_within_list repos s :
  outcome (main octokit repos) s = Ok tt ∧
  Forall (about_line repos) (issued (main octokit repos) s).
Proof.
  destruct (main_run octokit repos s) as (Hok & Hcalls & _). split; [done|].
  destruct (for_of_process_about repos (started s)) as (t & Ht & HF).
  simpl in Ht. rewrite Ht in Hcalls. apply issued_eq in Hcalls. by rewrite Hcalls.
Qed.

End WholeRun.

(** The organization answers 404 to the probe: the repository is listed all
    the same. *)
Lemma first_line_of_owner_witness :
  let not_found := github (Throw (http_error 404 "Not Found")) [bump]
                     (Ok (bump_details "clean")) (Ok tt)
                     (Ok {| state := "pending" |}) (Ok tt) in
  ∃ rest,
    issued (process_repository not_found "acme/app") fresh
      = OrgsGet "acme" :: PullsList "acme" "app" "open" :: rest.
Proof.
  intros not_found.
  apply (first_line_of_owner not_found "acme/app" "acme" "app" fresh).
  - repeat (split; [done|]). by left.
  - reflexivity.
Defined.

(** ** Before [main]: white space, the token, the list *)

(** One step of [+:+], which [simpl] leaves alone. *)
Ltac append :=
  repeat match goal with
  | |- context [String ?c ?a +:+ ?b] =>
      change (String c a +:+ b) with (String c (a +:+ b))
  | |- context [EmptyString +:+ ?b] => change (EmptyString +:+ b) with b
  | H : context [String ?c ?a +:+ ?b] |- _ =>
      change (String c a +:+ b) with (String c (a +:+ b)) in H
  | H : context [EmptyString +:+ ?b] |- _ =>
      change (EmptyString +:+ b) with b in H
  end; simpl in *.

Lemma string_app_nil_r s : s +:+ "" = s.
Proof. induction s as [|c s IH]; append; [done|]. by rewrite IH. Qed.

Lemma string_app_assoc a b c : (a +:+ b) +:+ c = a +:+ (b +:+ c).
Proof. induction a as [|x a IH]; append; [done|]. by rewrite IH. Qed.

Lemma string_app_length a b :
  String.length (a +:+ b) = (String.length a + String.length b)%nat.
Proof. induction a as [|x a IH]; append; [done|]. by rewrite IH. Qed.

Lemma occurs_app c a b : occurs c (a +:+ b) = occurs c a || occurs c b.
Proof.
  induction a as [|x a IH]; append; [done|]. by rewrite IH, orb_assoc.
Qed.

Lemma reverse_onto_spec s acc :
  Text.reverse_onto s acc = Text.reverse s +:+ acc.
Proof.
  unfold Text.reverse. revert acc.
  induction s as [|c s IH]; intros acc; simpl; [done|].
  rewrite (IH (String c "")), IH, string_app_assoc. done.
Qed.

Lemma reverse_app a b :
  Text.reverse (a +:+ b) = Text.reverse b +:+ Text.reverse a.
Proof.
  induction a as [|c a IH]; simpl.
  - change (Text.reverse "") with "". by rewrite string_app_nil_r.
  - unfold Text.reverse. simpl.
    rewrite (reverse_onto_spec (a +:+ b)), (reverse_onto_spec a), IH.
    by rewrite string_app_assoc.
Qed.

Lemma reverse_involutive s : Text.reverse (Text.reverse s) = s.
Proof.
  induction s as [|c s IH]; [done|].
  change (String c s) with (String c "" +:+ s).
  by rewrite reverse_app, reverse_app, IH.
Qed.

Lemma reverse_length s : String.length (Text.reverse s) = String.length s.
Proof.
  induction s as [|c s IH]; [done|].
  change (String c s) with (String c "" +:+ s).
  rewrite reverse_app, !string_app_length, IH. simpl. lia.
Qed.

(** [strip] finds the prefix, and nothing else. *)
Lemma strip_spec w s rest : Text.strip w s = Some rest ↔ s = w +:+ rest.
Proof.
  revert s. induction w as [|a w IH]; intros s; simpl.
  - split; [by intros [= ->]|by intros ->].
  - destruct s as [|b s]; [done|]. case_bool_decide as Hab.
    + subst b. rewrite IH. split; [by intros ->|by intros [= ->]].
    + split; [done|]. intros [= -> _]. done.
Qed.

Lemma strip_any_Some ws s rest :
  Text.strip_any ws s = Some rest → ∃ w, w ∈ ws ∧ s = w +:+ rest.
Proof.
  induction ws as [|w ws IH]; simpl; [done|].
  destruct (Text.strip w s) as [r|] eqn:Hw.
  - intros [= ->]. apply strip_spec in Hw. exists w. split; [left|done].
  - intros H. destruct (IH H) as (w' & ? & ?). exists w'. split; [by right|done].
Qed.

Lemma strip_any_None ws s :
  Text.strip_any ws s = None ↔ ∀ w rest, w ∈ ws → s ≠ w +:+ rest.
Proof.
  induction ws as [|w ws IH]; simpl.
  - split; [|done]. intros _ w rest Hw. by apply elem_of_nil in Hw.
  - destruct (Text.strip w s) as [r|] eqn:Hw.
    + split; [done|]. intros H. apply strip_spec in Hw.
      exfalso. apply (H w r); [left|done].
    + rewrite IH. split.
      * intros H w' rest [->|Hin]%elem_of_cons.
        -- intros E. apply strip_spec in E. congruence.
        -- by apply H.
      * intros H w' rest Hin. apply H. by right.
Qed.

Lemma made_of_app ws a b : made_of ws a → made_of ws b → made_of ws (a +:+ b).
Proof.
  induction 1 as [|w a Hw Ha IH]; intros Hb; [done|].
  rewrite string_app_assoc. constructor; [done|by apply IH].
Qed.

Lemma made_of_reverse ws s :
  made_of (Text.reverse <$> ws) s → made_of ws (Text.reverse s).
Proof.
  induction 1 as [|w s Hw Hs IH]; [constructor|].
  apply list_elem_of_fmap in Hw as (w' & -> & Hw').
  rewrite reverse_app, reverse_involutive.
  apply made_of_app; [done|].
  rewrite <- (string_app_nil_r w'). constructor; [done|constructor].
Qed.

(** With fuel for every character, [strip_all] takes a prefix made of [ws]
    and leaves a string that starts with none of them. *)
Lemma strip_all_spec ws fuel s :
  Forall (λ w, w ≠ "") ws → (String.length s ≤ fuel)%nat →
  ∃ pre, made_of ws pre ∧ s = pre +:+ Text.strip_all ws fuel s ∧
         Text.strip_any ws (Text.strip_all ws fuel s) = None.
Proof.
  intros Hne. revert s. induction fuel as [|fuel IH]; intros s Hlen; simpl.
  - exists "". split; [constructor|]. split; [done|].
    destruct s; [|simpl in Hlen; lia].
    apply strip_any_None. intros w rest Hw E.
    rewrite Forall_forall in Hne. apply (Hne w Hw). by destruct w.
  - destruct (Text.strip_any ws s) as [rest|] eqn:Hs.
    + destruct (strip_any_Some _ _ _ Hs) as (w & Hw & ->).
      rewrite Forall_forall in Hne. pose proof (Hne w Hw) as Hw0.
      rewrite string_app_length in Hlen.
      destruct (IH rest) as (pre & Hpre & E & Hnone).
      { destruct w; [done|]. simpl in Hlen. lia. }
      exists (w +:+ pre). split; [by constructor|]. split; [|done].
      rewrite string_app_assoc. by rewrite <- E.
    + exists "". split; [constructor|]. done.
Qed.

Lemma strip_all_none ws fuel s :
  Text.strip_any ws s = None → Text.strip_all ws fuel s = s.
Proof. intros H. destruct fuel; simpl; [done|]. by rewrite H. Qed.

Lemma whitespace_not_empty : Forall (λ w, w ≠ "") Text.whitespace.
Proof. by repeat constructor. Qed.

Lemma reversed_whitespace_not_empty :
  Forall (λ w, w ≠ "") (Text.reverse <$> Text.whitespace).
Proof. by repeat constructor. Qed.

Lemma trimmed_spec s :
  trimmed s ↔
  Text.strip_any Text.whitespace s = None ∧
  Text.strip_any (Text.reverse <$> Text.whitespace) (Text.reverse s) = None.
Proof.
  rewrite !strip_any_None. unfold trimmed. split.
  - intros H. split.
    + intros w rest Hw. exact (proj1 (H w rest Hw)).
    + intros w rest (w' & -> & Hw')%list_elem_of_fmap E.
      apply (f_equal Text.reverse) in E.
      rewrite reverse_app, !reverse_involutive in E.
      exact (proj2 (H w' (Text.reverse rest) Hw') E).
  - intros [Hs He] w rest Hw. split; [by apply Hs|].
    intros ->. apply (He (Text.reverse w) (Text.reverse rest)).
    + by apply list_elem_of_fmap_2.
    + apply reverse_app.
Qed.

(** [trim] takes white space from both ends, and all of it. *)
Lemma trim_spec s :
  ∃ pre post, blank pre ∧ blank post ∧
    s = pre +:+ Text.trim s +:+ post ∧ trimmed (Text.trim s).
Proof.
  unfold Text.trim, Text.trimStart, Text.trimEnd.
  destruct (strip_all_spec Text.whitespace (String.length s) s
              whitespace_not_empty) as (pre & Hpre & Es & Hstart); [done|].
  set (t := Text.strip_all Text.whitespace (String.length s) s) in *.
  destruct (strip_all_spec (Text.reverse <$> Text.whitespace)
              (String.length t) (Text.reverse t)
              reversed_whitespace_not_empty) as (post & Hpost & Et & Hend).
  { by rewrite reverse_length. }
  set (r := Text.strip_all (Text.reverse <$> Text.whitespace)
              (String.length t) (Text.reverse t)) in *.
  apply (f_equal Text.reverse) in Et.
  rewrite reverse_involutive, reverse_app in Et.
  exists pre, (Text.reverse post). split; [done|].
  split; [by apply made_of_reverse|]. split; [by rewrite <- Et|].
  apply trimmed_spec. rewrite reverse_involutive. split; [|done].
  apply strip_any_None. intros w rest Hw E.
  rewrite strip_any_None in Hstart.
  apply (Hstart w (rest +:+ Text.reverse post) Hw).
  by rewrite Et, E, string_app_assoc.
Qed.

Lemma trim_trimmed s : trimmed s → Text.trim s = s.
Proof.
  intros [Hs He]%trimmed_spec.
  unfold Text.trim, Text.trimStart, Text.trimEnd.
  rewrite (strip_all_none _ _ s Hs), (strip_all_none _ _ _ He).
  apply reverse_involutive.
Qed.

(** Two strings that start a common string: one starts the other. *)
Lemma strip_common w w' a b :
  w +:+ a = w' +:+ b →
  (∃ r, Text.strip w w' = Some r) ∨ (∃ r, Text.strip w' w = Some r).
Proof.
  revert w'. induction w as [|x w IH]; intros w' E; simpl.
  - left. by eexists.
  - destruct w' as [|y w']; simpl in *.
    + right. by eexists.
    + injection E as -> E. rewrite bool_decide_eq_true_2 by done.
      by apply IH.
Qed.

Lemma prefix_free_spec ws w w' a b :
  prefix_free ws = true → w ∈ ws → w' ∈ ws →
  w +:+ a = w' +:+ b → w = w' ∧ a = b.
Proof.
  unfold prefix_free. rewrite forallb_forall. intros Hfree Hw Hw' E.
  assert (w = w') as ->.
  { destruct (strip_common _ _ _ _ E) as [[r Hr]|[r Hr]].
    - specialize (Hfree w (proj1 (list_elem_of_In _ _) Hw)).
      rewrite forallb_forall in Hfree.
      specialize (Hfree w' (proj1 (list_elem_of_In _ _) Hw')).
      rewrite Hr in Hfree. by apply bool_decide_eq_true_1 in Hfree.
    - specialize (Hfree w' (proj1 (list_elem_of_In _ _) Hw')).
      rewrite forallb_forall in Hfree.
      specialize (Hfree w (proj1 (list_elem_of_In _ _) Hw)).
      rewrite Hr in Hfree. by apply bool_decide_eq_true_1 in Hfree. }
  split; [done|]. by apply (inj (String.app w')) in E.
Qed.

Lemma whitespace_prefix_free : prefix_free Text.whitespace = true.
Proof. vm_compute. reflexivity. Qed.

Lemma strip_any_whitespace w rest :
  w ∈ Text.whitespace → Text.strip_any Text.whitespace (w +:+ rest) = Some rest.
Proof.
  intros Hw.
  destruct (Text.strip_any Text.whitespace (w +:+ rest)) as [r|] eqn:E.
  - destruct (strip_any_Some _ _ _ E) as (w' & Hw' & E').
    by destruct (prefix_free_spec _ _ _ _ _ whitespace_prefix_free Hw Hw' E')
      as [_ ->].
  - rewrite strip_any_None in E. by destruct (E w rest Hw).
Qed.

(** A string is taken whole when it is white space, and only then. *)
Lemma trim_blank s : Text.trim s = "" ↔ blank s.
Proof.
  split.
  - intros E. destruct (trim_spec s) as (pre & post & Hpre & Hpost & Es & _).
    rewrite E in Es. simpl in Es. rewrite Es. by apply made_of_app.
  - intros Hs. unfold Text.trim, Text.trimStart.
    assert (∀ fuel, (String.length s ≤ fuel)%nat →
              Text.strip_all Text.whitespace fuel s = "") as Hall.
    { induction Hs as [|w s Hw Hs IH]; intros fuel Hlen.
      - by destruct fuel.
      - pose proof whitespace_not_empty as Hne. rewrite Forall_forall in Hne.
        pose proof (Hne w Hw) as Hw0. rewrite string_app_length in Hlen.
        destruct fuel as [|fuel]; [destruct w; [done|simpl in Hlen; lia]|].
        change (Text.strip_all Text.whitespace (S fuel) (w +:+ s))
          with (match Text.strip_any Text.whitespace (w +:+ s) with
                | Some rest => Text.strip_all Text.whitespace fuel rest
                | None => w +:+ s
                end).
        rewrite strip_any_whitespace by done. apply IH.
        destruct w; [done|]. simpl in Hlen. lia. }
    by rewrite Hall.
Qed.

#[global] Instance blank_dec s : Decision (blank s).
Proof.
  destruct (decide (Text.trim s = "")) as [H|H]; [left|right];
    by rewrite <- trim_blank.
Defined.

(** The lines that [filter(Boolean)] keeps after [trim] are the lines that
    are not blank, in their order. *)
Lemma filter_truthy_trim (lines : list string) :
  filter (λ line, Js.truthy (Some line) = true) (Text.trim <$> lines)
  = Text.trim <$> filter (λ l, ¬ blank l) lines.
Proof.
  induction lines as [|l lines IH]; [done|].
  rewrite fmap_cons, filter_cons. unfold Js.truthy at 1.
  destruct (decide _) as [H|H].
  - apply negb_true_iff, bool_decide_eq_false_1 in H.
    rewrite (filter_cons_True (λ l, ¬ blank l)) by (by rewrite <- trim_blank).
    by rewrite fmap_cons, IH.
  - apply not_true_is_false, negb_false_iff, bool_decide_eq_true_1 in H.
    rewrite (filter_cons_False (λ l, ¬ blank l)); [done|].
    intros Hnb. apply Hnb. by apply trim_blank.
Qed.

Lemma filter_truthy_nil lines :
  filter (λ line, Js.truthy (Some line) = true) (Text.trim <$> lines) = []
  ↔ Forall blank lines.
Proof.
  induction lines as [|l lines IH]; [by split; [constructor|]|].
  rewrite fmap_cons, filter_cons, Forall_cons, <- IH, <- trim_blank.
  unfold Js.truthy. destruct (decide _) as [H|H].
  - apply negb_true_iff, bool_decide_eq_false_1 in H. split; [done|tauto].
  - apply not_true_is_false, negb_false_iff, bool_decide_eq_true_1 in H. tauto.
Qed.

Section Startup.

Variable readFileSync : string → Js.Settled string.

(** X12 (lines 11-21).  The token of the run is the text of the token file
    without the white space at its two ends, whatever white space ECMAScript
    knows, and nothing else is taken from it; a file of white space only
    (an empty one too) is refused as [Token file is empty], and a file that
    cannot be read is refused with the error of the reader. *)
Theorem read_token_trims :
  match readFileSync TOKEN_FILE with
  | Throw err => read_token readFileSync = Throw err
  | Ok content =>
      (blank content ∧
       read_token readFileSync = Throw (new_Error "Token file is empty")) ∨
      (∃ pre token post,
         blank pre ∧ blank post ∧ content = pre +:+ token +:+ post ∧
         token ≠ "" ∧ trimmed token ∧ ¬ blank content ∧
         read_token readFileSync = Ok token)
  end.
Proof.
  unfold read_token. destruct (readFileSync TOKEN_FILE) as [content|err]; [|done].
  simpl. case_bool_decide as Hempty; simpl.
  - left. split; [by apply trim_blank|done].
  - right. destruct (trim_spec content) as (pre & post & ? & ? & ? & ?).
    exists pre, (Text.trim content), post. repeat (split; [done|]).
    split; [|done]. by rewrite <- trim_blank.
Qed.

(** X13 (lines 23-40).  The list of repositories is refused as [No valid
    repos found in file] exactly when every line of the file is white space
    only.  A list that is accepted is the lines of the file that are not
    blank, in the order of the file and as often as the file has them, each
    without the white space at its ends; it is not empty, and each of its
    lines is not empty, has no white space at either end and no line
    feed. *)
Theorem read_repos_lines content :
  readFileSync REPOS_FILE = Ok content →
  (read_repos readFileSync = Throw (new_Error "No valid repos found in file")
   ↔ Forall blank (Js.split "010" content)) ∧
  ∀ repos, read_repos readFileSync = Ok repos →
    repos = Text.trim <$> filter (λ l, ¬ blank l) (Js.split "010" content) ∧
    repos ≠ [] ∧
    Forall (λ line, line ≠ "" ∧ trimmed line ∧ occurs "010" line = false) repos.
Proof.
  intros Hread. unfold read_repos. rewrite Hread.
  set (lines := Js.split "010" content).
  pose proof (split_no_separator "010" content) as Hfree. fold lines in Hfree.
  set (repos := filter _ _).
  assert (∀ line, line ∈ repos → ∃ l, l ∈ lines ∧ ¬ blank l ∧ line = Text.trim l)
    as Hmem.
  { intros line. unfold repos. rewrite list_elem_of_filter, list_elem_of_fmap.
    unfold Js.truthy. rewrite negb_true_iff, bool_decide_eq_false.
    intros (Hne & l & -> & Hl). exists l. by rewrite <- trim_blank. }
  split.
  - rewrite <- filter_truthy_nil. fold repos. case_bool_decide as Hlen.
    + split; [|done]. intros _. by apply nil_length_inv.
    + split; [done|]. intros E. by rewrite E in Hlen.
  - intros repos'. case_bool_decide as Hlen; [done|]. intros [= <-].
    split; [apply filter_truthy_trim|].
    split; [by intros E; rewrite E in Hlen|].
    apply Forall_forall. intros line (l & Hl & Hnb & ->)%Hmem.
    rewrite <- trim_blank in Hnb. split; [done|].
    destruct (trim_spec l) as (pre & post & _ & _ & El & Htrimmed).
    split; [done|]. rewrite Forall_forall in Hfree. specialize (Hfree l Hl).
    simpl in Hfree. rewrite El, !occurs_app in Hfree.
    apply orb_false_iff in Hfree as [_ Hfree].
    by apply orb_false_iff in Hfree as [Hfree _].
Qed.

Variable client : string → Octokit.
Variable inspect : Js.Error → string.

(** X14 (lines 11-43 and 297-301).  The script exits with 0 exactly when it
    has a token and a list of repositories, whatever GitHub answers after
    that: the handler of line 298 never runs, and the state at the end is
    the state [main] leaves.  When it exits with 1 it has sent no request
    and counted nothing, and has printed one error line. *)
Theorem script_exit_code s :
  let code := (script readFileSync client inspect s).1 in
  let s' := (script readFileSync client inspect s).2 in
  (code = 0 ∨ code = 1) ∧
  (code = 0 ↔
   ∃ token repos, read_token readFileSync = Ok token ∧
                  read_repos readFileSync = Ok repos) ∧
  (∀ token repos,
     read_token readFileSync = Ok token → read_repos readFileSync = Ok repos →
     s' = after (main (client token) repos) s) ∧
  (code = 1 →
   calls s' = calls s ∧ stats s' = stats s ∧
   orgAccessCache s' = orgAccessCache s ∧
   ∃ line, console s' = console s ++ [(ConsoleError, line)]).
Proof.
  cbv zeta. unfold script.
  destruct (read_token readFileSync) as [token|err].
  - destruct (read_repos readFileSync) as [repos|err].
    + pose proof (main_run (client token) repos s) as (Hok & _).
      unfold outcome, after in *.
      destruct (main (client token) repos s) as [[[]|err] s'] eqn:E; [|done].
      simpl. split; [by left|].
      split; [split; [intros _; by exists token, repos|done]|].
      split; [|done]. intros ? ? [= <-] [= <-]. by rewrite E.
    + simpl. split; [by right|].
      split; [split; [done|by intros (? & ? & _ & ?)]|]. split; [done|].
      intros _. repeat (split; [done|]). by eexists.
  - simpl. split; [by right|].
    split; [split; [done|by intros (? & ? & ? & _)]|]. split; [done|].
    intros _. repeat (split; [done|]). by eexists.
Qed.

End Startup.

(** A list with a line that comes twice, a line in white space that ends
    in a carriage return, and a blank line: the lines stay in their order,
    the repeated one twice. *)
Lemma read_repos_lines_witness :
  let content :=
    "b/x" +:+ String "010" ("  a/y" +:+ String "009" (String "013" (String "010"
      (String "010" ("b/x" +:+ String "010" ""))))) in
  read_repos (files None (Some content)) = Ok ["b/x"; "a/y"; "b/x"] ∧
  ["b/x"; "a/y"; "b/x"]
    = Text.trim <$> filter (λ l, ¬ blank l) (Js.split "010" content) ∧
  ∀ line, line ∈ ["b/x"; "a/y"; "b/x"] → line ≠ "" ∧ trimmed line.
Proof.
  intros content.
  destruct (read_repos_lines (files None (Some content)) content) as [_ H].
  - reflexivity.
  - destruct (H ["b/x"; "a/y"; "b/x"]) as (Horder & _ & Hall); [reflexivity|].
    split; [reflexivity|]. split; [exact Horder|]. intros line Hline.
    rewrite Forall_forall in Hall. destruct (Hall line Hline) as (? & ? & _).
    done.
Defined.

(** A token and one repository: the run against [github_green] ends with
    0. *)
Lemma script_exit_code_witness :
  (script (files (Some (" ghp_1" +:+ String "010" ""))
                 (Some ("acme/app" +:+ String "010" "")))
          (λ _, github_green) Js.toString fresh).1 = 0.
Proof.
  destruct (script_exit_code
              (files (Some (" ghp_1" +:+ String "010" ""))
                     (Some ("acme/app" +:+ String "010" "")))
              (λ _, github_green) Js.toString fresh) as (_ & [_ H] & _).
  apply H. exists "ghp_1", ["acme/app"]. split; reflexivity.
Defined.
